(** * create_unity_backup.py: a shallow embedding and its properties

    The script drives a browser through the Unisphere console of a Dell
    Unity array, triggers a configuration backup and an encryption
    keystore backup, waits for each download and moves it to an archive
    directory.

    The embedding has three layers:
    - [Py]: the pure pieces of the Python library the script relies on
      ([str.strip], [str.lower], [str.endswith], [in], [str.replace],
      [os.path.splitext], [re.search] for the one pattern used,
      [strftime] for the two formats used);
    - [Stmt]: a small monad for Python statements: a world (history of
      external calls, file system, the [self.driver] attribute), and
      four ways a statement ends (falls through, [return], raises, or
      the model of a [while] loop runs out of fuel);
    - the program: [UnityBackup] methods and [main], written in the
      order of the source.

    Strings are sequences of code points below 256.  Calls to
    [self.logger] only print and are left out; [print] is kept. *)

From Stdlib Require Import ZArith String Ascii List Bool Lia.
From stdpp Require Import base option list gmap sets strings.

Local Open Scope string_scope.
Local Open Scope list_scope.
Local Open Scope Z_scope.

(** ** Python library functions *)

Module Py.

Definition ord (c : ascii) : Z := Z.of_nat (nat_of_ascii c).

Definition chr (n : Z) : ascii := ascii_of_nat (Z.to_nat n).

(** [str.isspace] on one character (code points below 256). *)
Definition isspace (c : ascii) : bool :=
  let n := ord c in
  ((9 <=? n) && (n <=? 13)) || ((28 <=? n) && (n <=? 32))
  || (n =? 133) || (n =? 160).

Fixpoint lstrip (s : string) : string :=
  match s with
  | EmptyString => EmptyString
  | String c t => if isspace c then lstrip t else s
  end.

Fixpoint rstrip (s : string) : string :=
  match s with
  | EmptyString => EmptyString
  | String c t =>
      match rstrip t with
      | EmptyString => if isspace c then EmptyString else String c EmptyString
      | t' => String c t'
      end
  end.

(** [s.strip()] *)
Definition strip (s : string) : string := lstrip (rstrip s).

(** [str.lower] on one character: A-Z, and the capital letters of
    Latin-1 (0xC0-0xDE without the multiplication sign 0xD7). *)
Definition lower_char (c : ascii) : ascii :=
  let n := ord c in
  if ((65 <=? n) && (n <=? 90))
     || ((192 <=? n) && (n <=? 222) && negb (n =? 215))
  then chr (n + 32) else c.

Fixpoint lower (s : string) : string :=
  match s with
  | EmptyString => EmptyString
  | String c t => String (lower_char c) (lower t)
  end.

(** [s.startswith(p)] *)
Fixpoint startswith (s p : string) {struct p} : bool :=
  match p, s with
  | EmptyString, _ => true
  | String _ _, EmptyString => false
  | String a p', String b s' => Ascii.eqb a b && startswith s' p'
  end.

(** [s.endswith(suf)] *)
Fixpoint endswith (s suf : string) : bool :=
  String.eqb s suf
  || match s with
     | EmptyString => false
     | String _ t => endswith t suf
     end.

(** [sub in s] *)
Fixpoint contains (s sub : string) : bool :=
  startswith s sub
  || match s with
     | EmptyString => false
     | String _ t => contains t sub
     end.

(** [s.replace(a, b)] for single characters. *)
Fixpoint replace_char (a b : ascii) (s : string) : string :=
  match s with
  | EmptyString => EmptyString
  | String c t => String (if Ascii.eqb c a then b else c) (replace_char a b t)
  end.

(** [s.split(sep)[0]]: the part of [s] before the first occurrence of
    the non-empty [sep], or all of [s]. *)
Fixpoint split_head (s sep : string) : string :=
  if startswith s sep then EmptyString
  else match s with
       | EmptyString => EmptyString
       | String c t => String c (split_head t sep)
       end.

(** The suffix of [s] that starts at its last dot, with the part
    before it: [p.rfind('.')]. *)
Fixpoint rsplit_dot (s : string) : option (string * string) :=
  match s with
  | EmptyString => None
  | String c t =>
      match rsplit_dot t with
      | Some (root, ext) => Some (String c root, ext)
      | None => if Ascii.eqb c "." then Some (EmptyString, s) else None
      end
  end.

Fixpoint all_dots (s : string) : bool :=
  match s with
  | EmptyString => true
  | String c t => Ascii.eqb c "." && all_dots t
  end.

(** [os.path.splitext(p)] for a name without directory separators, as
    [os.listdir] returns them: the extension starts at the last dot,
    unless only dots come before it. *)
Definition splitext (p : string) : string * string :=
  match rsplit_dot p with
  | Some (root, ext) => if all_dots root then (p, EmptyString) else (root, ext)
  | None => (p, EmptyString)
  end.

(** *** [re.search(r'https?://([\d.]+)', s)] *)

Definition is_digit (c : ascii) : bool :=
  let n := ord c in (48 <=? n) && (n <=? 57).

Definition digit_or_dot (c : ascii) : bool := is_digit c || Ascii.eqb c ".".

Fixpoint take_while (p : ascii -> bool) (s : string) : string :=
  match s with
  | EmptyString => EmptyString
  | String c t => if p c then String c (take_while p t) else EmptyString
  end.

Fixpoint strip_prefix (p s : string) {struct p} : option string :=
  match p, s with
  | EmptyString, _ => Some s
  | String _ _, EmptyString => None
  | String a p', String b s' => if Ascii.eqb a b then strip_prefix p' s' else None
  end.

(** A match of the pattern anchored at the start of [s]; the result is
    group 1.  The optional [s] is greedy, and giving it back cannot
    help: the next character would have to be a colon. *)
Definition match_url_here (s : string) : option string :=
  match strip_prefix "http" s with
  | None => None
  | Some r =>
      let r' := match r with
                | String "s" t => t
                | _ => r
                end in
      match strip_prefix "://" r' with
      | None => None
      | Some t =>
          match take_while digit_or_dot t with
          | EmptyString => None
          | g => Some g
          end
      end
  end.

(** [re.search]: the leftmost position with a match. *)
Fixpoint search_url (s : string) : option string :=
  match match_url_here s with
  | Some g => Some g
  | None =>
      match s with
      | EmptyString => None
      | String _ t => search_url t
      end
  end.

(** *** [datetime] and [strftime] *)

Record datetime : Type := mkDatetime {
  year : Z; month : Z; day : Z; hour : Z; minute : Z; second : Z
}.

Definition digit (n : Z) : ascii := chr (48 + n mod 10).

(** [%m], [%d], [%H], [%M], [%S]: two digits. *)
Definition pad2 (n : Z) : string :=
  String (digit (n / 10)) (String (digit n) EmptyString).

(** [%Y]: four digits (years 1000 to 9999). *)
Definition pad4 (n : Z) : string :=
  String (digit (n / 1000)) (String (digit (n / 100)) (pad2 n)).

(** [strftime('%Y-%m-%d_%H%M%S')] *)
Definition strftime_archive (d : datetime) : string :=
  pad4 (year d) +:+ "-" +:+ pad2 (month d) +:+ "-" +:+ pad2 (day d) +:+ "_"
  +:+ pad2 (hour d) +:+ pad2 (minute d) +:+ pad2 (second d).

(** [strftime('%Y%m%d_%H%M%S')] *)
Definition strftime_debug (d : datetime) : string :=
  pad4 (year d) +:+ pad2 (month d) +:+ pad2 (day d) +:+ "_"
  +:+ pad2 (hour d) +:+ pad2 (minute d) +:+ pad2 (second d).

End Py.

(** ** The world outside the script *)

(** A file is named by its directory and its name in it:
    [os.path.join(d, n)] for a bare name [n] is the pair [(d, n)].
    Directories themselves are not represented. *)
Definition path : Type := string * string.

Inductive By : Type := XPATH | ID | CSS_SELECTOR | TAG_NAME.

Definition locator : Type := By * string.

(** A [WebElement]: the locator that found it, and its rank among the
    elements that locator finds. *)
Inductive elem : Type := Elem (l : locator) (rank : nat).

(** [EC.presence_of_element_located], [EC.element_to_be_clickable] *)
Inductive cond : Type := Presence | Clickable.

Inductive script : Type :=
| SetLocation (url : string)      (* window.location.href = '...'; *)
| ScrollIntoView (e : elem).      (* arguments[0].scrollIntoView(true); *)

Inductive keys : Type :=
| Text (s : option string)
| ESCAPE.

Inductive method : Type :=
| m_start_driver | m_login | m_backup_workflow
| m_encryption_keystore_backup | m_close.

(** The calls the script makes to the world outside it, and [Enter],
    which marks the entry into a method of [UnityBackup]. *)
Inductive op : Type :=
| Enter (m : method)
| PathExists (p : string)
| InstallDriver (browser : string)
| StartBrowser (browser : string)
| Get (url : string)
| ExecuteScript (s : script)
| CurrentUrl
| Title
| FindElement (l : locator)
| FindElements (l : locator)
| WaitUntil (timeout : Z) (c : cond) (l : locator)
| Click (e : elem)
| Clear (e : elem)
| SendKeys (e : elem) (k : keys)
| IsDisplayed (e : elem)
| GetText (e : elem)
| TagName (e : elem)
| GetAttribute (e : elem) (name : string)
| Sleep (secs : Z)
| Now
| Mkdir (dir : string)
| WritePageSource (p : path)
| SaveScreenshot (p : path)
| Listdir (dir : string)
| Makedirs (dir : string)
| Move (src dst : path)
| Quit
| ReadFile (file : string)
| Print (msg : string).

(** Exceptions, as far as the script's [except] clauses tell them
    apart.  What a call to the outside raises is an [Exception]
    ([err]); [SystemExit] comes from the script's own [sys.exit].
    Asynchronous interrupts are outside the model. *)
Inductive err : Type := TimeoutException | WebDriverException | OtherException.

Inductive exn : Type :=
| Err (e : err)
| SystemExit (code : Z).

(** [except Exception] *)
Definition is_Exception (e : exn) : bool :=
  match e with
  | Err _ => true
  | SystemExit _ => false
  end.

(** [except TimeoutException] *)
Definition is_TimeoutException (e : exn) : bool :=
  match e with
  | Err TimeoutException => true
  | _ => false
  end.

(** [except WebDriverException]: [TimeoutException] is a subclass. *)
Definition is_WebDriverException (e : exn) : bool :=
  match e with
  | Err TimeoutException | Err WebDriverException => true
  | _ => false
  end.

(** The environment answers every call, knowing the calls made so far. *)
Record Env : Type := mkEnv {
  home : string;                                   (* Path.home() *)
  cwd : string;                                    (* Path.cwd() *)
  fails : list op -> op -> option err;             (* the call raises *)
  evolve : list op -> gmap path string -> gmap path string;
                                                   (* what others do to the files between two calls *)
  exists_path : list op -> string -> bool;         (* os.path.exists *)
  text_of : list op -> elem -> string;             (* el.text *)
  found : list op -> locator -> nat;               (* len(driver.find_elements(...)) *)
  displayed : list op -> elem -> bool;             (* el.is_displayed() *)
  page_source : list op -> string;                 (* driver.page_source *)
  screenshot : list op -> string;                  (* the bytes of a screenshot *)
  file_text : list op -> string -> string;         (* open(file).read() *)
  clock : list op -> Py.datetime;                  (* datetime.now() *)
  set_iter : gset string -> list string            (* the order in which a set is iterated *)
}.

Record World : Type := mkWorld {
  hist : list op;                 (* the calls made, oldest first *)
  fs : gmap path string;          (* the files and their content *)
  driver : bool                   (* self.driver is not None *)
}.

(** The names in a directory: [set(os.listdir(dir))]. *)
Definition dir_names (files : gmap path string) (dir : string) : gset string :=
  list_to_set (map snd (List.filter (fun p => String.eqb (fst p) dir) (elements (dom files)))).

(** ** Statements *)

Inductive outcome (A : Type) : Type :=
| Normal (a : A)       (* the statement falls through *)
| Return (b : bool)    (* a return statement was executed *)
| Raise (e : exn)      (* an exception is propagating *)
| OutOfFuel.           (* a while loop did not end within its fuel *)

Arguments Normal {A} a.
Arguments Return {A} b.
Arguments Raise {A} e.
Arguments OutOfFuel {A}.

Definition Stmt (A : Type) : Type := World -> outcome A * World.

Definition ret {A} (a : A) : Stmt A := fun w => (Normal a, w).

Definition bind {A B} (m : Stmt A) (k : A -> Stmt B) : Stmt B :=
  fun w =>
    match m w with
    | (Normal a, w') => k a w'
    | (Return b, w') => (Return b, w')
    | (Raise e, w') => (Raise e, w')
    | (OutOfFuel, w') => (OutOfFuel, w')
    end.

Declare Scope stmt_scope.
Delimit Scope stmt_scope with stmt.
Notation "x <- m ;; k" := (bind m (fun x => k))
  (at level 100, m at next level, right associativity) : stmt_scope.
Notation "m ;; k" := (bind m (fun _ => k))
  (at level 100, right associativity) : stmt_scope.
Local Open Scope stmt_scope.

Definition return_ {A} (b : bool) : Stmt A := fun w => (Return b, w).

Definition raise {A} (e : exn) : Stmt A := fun w => (Raise e, w).

(** [try: body  except <catches>: handler] *)
Definition try_except {A} (body : Stmt A) (catches : exn -> bool) (handler : Stmt A) : Stmt A :=
  fun w =>
    match body w with
    | (Raise e, w') => if catches e then handler w' else (Raise e, w')
    | r => r
    end.

(** [try: body  finally: fin].  The script has no [return] under a
    [finally]; a loop that does not end never reaches it. *)
Definition try_finally {A} (body : Stmt A) (fin : Stmt unit) : Stmt A :=
  fun w =>
    match body w with
    | (OutOfFuel, w1) => (OutOfFuel, w1)
    | (r, w1) =>
        match fin w1 with
        | (Normal _, w2) => (r, w2)
        | (Return b, w2) => (Return b, w2)
        | (Raise e, w2) => (Raise e, w2)
        | (OutOfFuel, w2) => (OutOfFuel, w2)
        end
    end.

(** A method call: [return b] ends the method with value [b]; a body
    that falls off its end returns [None], which is false in a test. *)
Definition call (m : method) (body : Stmt unit) : Stmt bool :=
  fun w =>
    match body (mkWorld (hist w ++ [Enter m]) (fs w) (driver w)) with
    | (Normal _, w') => (Normal false, w')
    | (Return b, w') => (Normal b, w')
    | (Raise e, w') => (Raise e, w')
    | (OutOfFuel, w') => (OutOfFuel, w')
    end.

Section Primitives.

Variable env : Env.

(** The world just before a call [o] is answered: the call is on
    record and the files are what the others have made of them. *)
Definition before (o : op) (w : World) : World :=
  mkWorld (hist w ++ [o]) (evolve env (hist w) (fs w)) (driver w).

(** A call to the outside that answers nothing. *)
Definition perform (o : op) : Stmt unit :=
  fun w =>
    match fails env (hist w) o with
    | Some e => (Raise (Err e), before o w)
    | None => (Normal tt, before o w)
    end.

(** A call that answers with [f] of the history. *)
Definition ask {A} (o : op) (f : list op -> A) : Stmt A :=
  fun w =>
    match fails env (hist w) o with
    | Some e => (Raise (Err e), before o w)
    | None => (Normal (f (hist w)), before o w)
    end.

(** [time.sleep(secs)] *)
Definition sleep (secs : Z) : Stmt unit :=
  fun w => (Normal tt, before (Sleep secs) w).

(** [print(msg)] *)
Definition print (msg : string) : Stmt unit :=
  fun w => (Normal tt, before (Print msg) w).

(** [datetime.now()] *)
Definition now : Stmt Py.datetime :=
  fun w => (Normal (clock env (hist w)), before Now w).

(** [os.path.exists(p)] *)
Definition path_exists (p : string) : Stmt bool :=
  fun w => (Normal (exists_path env (hist w) p), before (PathExists p) w).

(** [set(os.listdir(dir))] *)
Definition listdir (dir : string) : Stmt (gset string) :=
  fun w =>
    let w' := before (Listdir dir) w in
    match fails env (hist w) (Listdir dir) with
    | Some e => (Raise (Err e), w')
    | None => (Normal (dir_names (fs w') dir), w')
    end.

(** Writing [content] to the file [p].  A write that raises leaves the
    files as they were: the empty file that [open] may have created
    before the error is not represented. *)
Definition write_file (o : op) (p : path) (content : list op -> string) : Stmt unit :=
  fun w =>
    let w' := before o w in
    match fails env (hist w) o with
    | Some e => (Raise (Err e), w')
    | None => (Normal tt, mkWorld (hist w') (<[p := content (hist w)]> (fs w')) (driver w'))
    end.

(** [shutil.move(src, dst)]: the file leaves [src] and is at [dst];
    a missing source raises. *)
Definition shutil_move (src dst : path) : Stmt unit :=
  fun w =>
    let w' := before (Move src dst) w in
    match fails env (hist w) (Move src dst) with
    | Some e => (Raise (Err e), w')
    | None =>
        match fs w' !! src with
        | None => (Raise (Err OtherException), w')
        | Some content =>
            (Normal tt, mkWorld (hist w') (<[dst := content]> (delete src (fs w'))) (driver w'))
        end
    end.

(** [self.driver = webdriver.Chrome(...)] or [webdriver.Edge(...)] *)
Definition start_browser (browser : string) : Stmt unit :=
  fun w =>
    let w' := before (StartBrowser browser) w in
    match fails env (hist w) (StartBrowser browser) with
    | Some e => (Raise (Err e), w')
    | None => (Normal tt, mkWorld (hist w') (fs w') true)
    end.

(** [WebDriverWait(self.driver, timeout).until(cond(l))] *)
Definition wait_until (timeout : Z) (c : cond) (l : locator) : Stmt elem :=
  ask (WaitUntil timeout c l) (fun _ => Elem l 0).

End Primitives.

(** ** Locators *)

(** The double quote, which the selectors below contain. *)
Definition dq : string := String "034" EmptyString.

Definition username_selectors : list locator :=
  [ (XPATH, "//input[@name='username']");
    (XPATH, "//input[@id='username']");
    (XPATH, "//input[@name='user']");
    (XPATH, "//input[@id='user']");
    (XPATH, "//input[contains(@placeholder, 'username')]");
    (XPATH, "//input[contains(@placeholder, 'Username')]");
    (XPATH, "//input[contains(@class, 'username')]") ].

Definition management_selectors : list locator :=
  [ (XPATH, "//span[@class=" +:+ dq +:+ "x-tree-node-text " +:+ dq +:+ " and text()=" +:+ dq +:+ "Management" +:+ dq +:+ "]");
    (XPATH, "//div[contains(@id, " +:+ dq +:+ "ext-element-" +:+ dq +:+ ")]/span[@class=" +:+ dq +:+ "x-tree-node-text " +:+ dq +:+ " and text()=" +:+ dq +:+ "Management" +:+ dq +:+ "]");
    (CSS_SELECTOR, "#ext-element-288 > span.x-tree-node-text");
    (XPATH, "//*[contains(text(), " +:+ dq +:+ "Management" +:+ dq +:+ ") and contains(@class, " +:+ dq +:+ "x-tree-node-text" +:+ dq +:+ ")]");
    (XPATH, "/html/body/div[9]/div[2]/div[2]/div/div[2]/div/div[1]/table[3]/tbody/tr/td/div/span[2]");
    (XPATH, "//span[text()=" +:+ dq +:+ "Management" +:+ dq +:+ "]") ].

Definition encryption_selectors : list locator :=
  [ (CSS_SELECTOR, "#ext-element-1024");
    (XPATH, "//span[@class=" +:+ dq +:+ "x-tree-node-text " +:+ dq +:+ " and text()=" +:+ dq +:+ "Encryption" +:+ dq +:+ "]");
    (XPATH, "//tr[@id=" +:+ dq +:+ "ext-element-1024" +:+ dq +:+ "]//span[@class=" +:+ dq +:+ "x-tree-node-text " +:+ dq +:+ " and text()=" +:+ dq +:+ "Encryption" +:+ dq +:+ "]");
    (XPATH, "//table[@id and contains(@id, " +:+ dq +:+ "treeview" +:+ dq +:+ ")]//span[@class=" +:+ dq +:+ "x-tree-node-text " +:+ dq +:+ " and text()=" +:+ dq +:+ "Encryption" +:+ dq +:+ "]");
    (XPATH, "//*[contains(text(), " +:+ dq +:+ "Encryption" +:+ dq +:+ ") and contains(@class, " +:+ dq +:+ "x-tree-node-text" +:+ dq +:+ ")]");
    (XPATH, "/html/body/div[9]/div[2]/div[2]/div/div[2]/div/div[1]/table[13]/tbody/tr/td/div/span");
    (XPATH, "//span[text()=" +:+ dq +:+ "Encryption" +:+ dq +:+ "]") ].

Definition backup_keystore_selectors : list locator :=
  [ (CSS_SELECTOR, "#button-2297");
    (XPATH, "//a[@id=" +:+ dq +:+ "button-2297" +:+ dq +:+ "]");
    (XPATH, "//span[@class=" +:+ dq +:+ "x-btn-inner x-btn-inner-secondary-small" +:+ dq +:+ " and text()=" +:+ dq +:+ "Backup Keystore File" +:+ dq +:+ "]");
    (XPATH, "//a[@role=" +:+ dq +:+ "button" +:+ dq +:+ "]//span[text()=" +:+ dq +:+ "Backup Keystore File" +:+ dq +:+ "]");
    (XPATH, "//*[contains(@class, " +:+ dq +:+ "x-btn" +:+ dq +:+ ") and .//span[text()=" +:+ dq +:+ "Backup Keystore File" +:+ dq +:+ "]]");
    (XPATH, "//*[contains(text(), " +:+ dq +:+ "Backup Keystore File" +:+ dq +:+ ")]");
    (XPATH, "/html/body/div[9]/div[2]/div[3]/div/div[1]/div[2]/div/div/a/span/span/span[2]");
    (XPATH, "//a[contains(., " +:+ dq +:+ "Backup Keystore File" +:+ dq +:+ ")]") ].

Definition login_button_selectors : list locator :=
  [ (XPATH, "//*[@id='submit']");
    (XPATH, "//button[contains(text(), 'Log')]");
    (XPATH, "//button[contains(text(), 'Sign')]");
    (XPATH, "//input[@type='submit']");
    (XPATH, "//button[@type='submit']") ].

Definition execute_xpaths : list locator :=
  [ (XPATH, "/html/body/div[1]/div[3]/div[2]/div/div[2]/div/div/div[2]/div/div/div/div/div[1]/div/div/div/div[1]/div/div/div/div/div[2]/div/div/div/div/div/div/div/div/div/div[3]/div/div/div/div/div[2]/div/div/a/span/span/span[2]");
    (XPATH, "//span[@id='button-1512-btnEl']");
    (XPATH, "//span[@id='button-1512-btnWrap']") ].

Definition create_new_selectors : list locator :=
  [ (ID, "button-1339");
    (XPATH, "//a[span/span/span[contains(text(), " +:+ dq +:+ "Create New" +:+ dq +:+ ")]]");
    (XPATH, "//span[contains(text(), " +:+ dq +:+ "Create New" +:+ dq +:+ ")]");
    (XPATH, "//a[@id and .//span[contains(text(), " +:+ dq +:+ "Create New" +:+ dq +:+ ")]]");
    (XPATH, "//a[contains(@class, " +:+ dq +:+ "x-btn" +:+ dq +:+ ") and .//span[contains(text(), " +:+ dq +:+ "Create New" +:+ dq +:+ ")]]") ].

Definition accept_locator : locator := (XPATH, "//*[@id=" +:+ dq +:+ "accept" +:+ dq +:+ "]").

Definition password_locator : locator := (XPATH, "//input[@type='password']").

Definition save_config_locator : locator :=
  (XPATH, "/html/body/div[1]/div[3]/div[2]/div/div[2]/div/div/div[2]/div/div/div/div/div[1]/div/div/div/div[1]/div/div/div/div/div[2]/div/div/div/div/div/div/div/div/div/div[1]/div/div[2]/div/div[2]/table[2]/tbody/tr/td/div").

Definition settings_locator : locator :=
  (XPATH, "/html/body/div[1]/div[1]/div/div/a[2]/span/span/span[1]").

Definition body_locator : locator := (TAG_NAME, "body").

(** ['//*[contains(text(), "<name>")]'] *)
Definition text_locator (name : string) : locator :=
  (XPATH, "//*[contains(text(), " +:+ dq +:+ name +:+ dq +:+ ")]").

Definition banner : string :=
  "This system is solely for the use of authorized users for official purposes.".

(** ** The download predicates *)

(** Line 405: [f.lower().endswith('.cfg') or 'backup' in f.lower() or
    f.lower().endswith('.html')] *)
Definition is_config_backup (f : string) : bool :=
  Py.endswith (Py.lower f) ".cfg"
  || Py.contains (Py.lower f) "backup"
  || Py.endswith (Py.lower f) ".html".

(** Line 721: [f.lower().endswith('.lbb')] *)
Definition is_keystore_backup (f : string) : bool :=
  Py.endswith (Py.lower f) ".lbb".

(** [if s:] for a string *)
Definition truthy (s : string) : bool := negb (String.eqb s "").

(** [for f in new_files: if accepts(f): backup_file = f; break] *)
Definition first_accepted (accepts : string -> bool) (new_files : list string) : option string :=
  List.find accepts new_files.

(** ** Archive names *)

(** Lines 415-416 and 730-735 *)
Definition unity_ip_of (unity_url : string) : string :=
  match Py.search_url unity_url with
  | Some g => Py.replace_char "." "_" g
  | None => "unknown_ip"
  end.

(** Lines 418-422 and 737-740 *)
Definition new_name (prefix unity_url : string) (d : Py.datetime) (backup_file : string) : string :=
  let unity_ip := unity_ip_of unity_url in
  let date_str := Py.strftime_archive d in
  let ext := snd (Py.splitext backup_file) in
  prefix +:+ "_" +:+ date_str +:+ "-IP-" +:+ unity_ip +:+ ext.

Definition config_prefix : string := "unity_backup".
Definition config_target_dir : string := "E:\\Unity\\Configuration backups".
Definition keystore_prefix : string := "Unity-Encryption-Backup".
Definition keystore_target_dir : string := "E:\\Unity\\Encryption Key Backups".

(** ** The class UnityBackup *)

Record UnityBackup : Type := mkUnityBackup {
  unity_url : string;
  username : string;
  password : option string;
  browser : string
}.

Record Namespace : Type := mkNamespace {
  ns_unity_url : string;
  ns_username : string;
  ns_password : option string;
  ns_password_file : option string;
  ns_browser : string
}.

Definition edge_binary_x86 : string :=
  "C:\Program Files (x86)\Microsoft\Edge\Application\msedge.exe".
Definition edge_binary : string :=
  "C:\Program Files\Microsoft\Edge\Application\msedge.exe".

Section Program.

Variable env : Env.

(** [Path.home() / "Downloads"] and [Path.cwd() / "unity_backups" /
    "debug"].  [Path.home()] and [Path.cwd()] are taken to answer: a
    home directory that cannot be resolved is outside the model. *)
Definition download_dir : string := home env +:+ "/Downloads".
Definition debug_dir : string := cwd env +:+ "/unity_backups/debug".

(** The loop shape of every locator chain:
    [var = None
     for l in locators:
         try:
             var = wait.until(cond(l)); act(var); break
         except <catches>:
             continue]
    The result is the value of [var] after the loop. *)
Inductive iteration : Type :=
| Break (e : elem)
| Continue (var : option elem).

Definition try_locator (catches : exn -> bool) (timeout : Z) (c : cond)
    (act : elem -> Stmt unit) (var : option elem) (l : locator) : Stmt iteration :=
  try_except
    (e <- wait_until env timeout c l;;
     try_except (act e;; ret (Break e)) catches (ret (Continue (Some e))))
    catches (ret (Continue var)).

Fixpoint for_locators (catches : exn -> bool) (timeout : Z) (c : cond)
    (act : elem -> Stmt unit) (locators : list locator) (var : option elem)
    : Stmt (option elem) :=
  match locators with
  | [] => ret var
  | l :: rest =>
      r <- try_locator catches timeout c act var l;;
      match r with
      | Break e => ret (Some e)
      | Continue var' => for_locators catches timeout c act rest var'
      end
  end.

(** [self.driver.execute_script("arguments[0].scrollIntoView(true);", e)
     time.sleep(1)
     e.click()] and the sleeps that follow in the same [try]. *)
Definition scroll_and_click (settle : list Z) (e : elem) : Stmt unit :=
  perform env (ExecuteScript (ScrollIntoView e));;
  sleep env 1;;
  perform env (Click e);;
  fold_right (fun s k => sleep env s;; k) (ret tt) settle.

(** The debug capture: page source and screenshot under
    [unity_backups/debug]; the two writes swallow their errors, the
    [mkdir] before them does not. *)
Definition save_debug (name : string) : Stmt unit :=
  perform env (Mkdir debug_dir);;
  d <- now env;;
  let ts := Py.strftime_debug d in
  let page_path := (debug_dir, name +:+ "_" +:+ ts +:+ ".html") in
  let shot_path := (debug_dir, name +:+ "_" +:+ ts +:+ ".png") in
  try_except (write_file env (WritePageSource page_path) page_path (page_source env))
    is_Exception (ret tt);;
  try_except (write_file env (SaveScreenshot shot_path) shot_path (screenshot env))
    is_Exception (ret tt).

(** [UnityBackup.__init__] *)
Definition UnityBackup_init (url user : string) (pw : option string) (br : string)
    : Stmt UnityBackup :=
  fun w =>
    (Normal (mkUnityBackup
               (if Py.startswith url "http" then url else "https://" +:+ url)
               user pw (Py.lower br)),
     mkWorld (hist w) (fs w) false).

(** [UnityBackup.start_driver], lines 61-125.  Both [except] clauses
    end in [sys.exit(1)]; the [sys.exit] calls inside the [try] pass
    through them. *)
Definition start_driver (self : UnityBackup) : Stmt unit :=
  _ <- call m_start_driver
    (try_except
       (if String.eqb (browser self) "chrome" then
          perform env (InstallDriver "chrome");;
          start_browser env "chrome"
        else if String.eqb (browser self) "edge" then
          x86 <- path_exists env edge_binary_x86;;
          (if x86 then ret tt
           else
             x64 <- path_exists env edge_binary;;
             if x64 then ret tt else raise (SystemExit 1));;
          perform env (InstallDriver "edge");;
          start_browser env "edge"
        else raise (SystemExit 1))
       is_Exception (raise (SystemExit 1)));;
  ret tt.

(** [UnityBackup.login], lines 127-273 *)
Definition login (self : UnityBackup) : Stmt bool :=
  call m_login
    (try_except
       (try_except (perform env (Get (unity_url self)))
          is_Exception (perform env (ExecuteScript (SetLocation (unity_url self))));;
        sleep env 5;;
        perform env CurrentUrl;;
        perform env Title;;
        (* the security acceptance page *)
        try_except
          (body <- ask env (FindElement body_locator) (fun _ => Elem body_locator 0);;
           body_text <- ask env (GetText body) (fun h => text_of env h body);;
           if Py.contains body_text banner then
             try_except
               (accept_btn <- wait_until env 10 Clickable accept_locator;;
                perform env (Click accept_btn);;
                sleep env 3)
               is_Exception (return_ false)
           else ret tt)
          is_Exception (ret tt);;
        (* the username field *)
        username_field <-
          for_locators is_TimeoutException 10 Presence (fun _ => ret tt)
            username_selectors None;;
        match username_field with
        | None => save_debug "login_page";; return_ false
        | Some username_field =>
            perform env (Clear username_field);;
            perform env (SendKeys username_field (Text (Some (username self))));;
            (* the password field *)
            try_except
              (password_field <- wait_until env 10 Presence password_locator;;
               perform env (Clear password_field);;
               perform env (SendKeys password_field (Text (password self))))
              is_TimeoutException (return_ false);;
            (* the login button *)
            try_except
              (login_button <-
                 for_locators is_TimeoutException 10 Clickable (fun _ => ret tt)
                   login_button_selectors None;;
               match login_button with
               | Some login_button =>
                   perform env (Click login_button);;
                   sleep env 20;;
                   save_debug "post_login_page";;
                   return_ true
               | None => return_ false
               end)
              is_Exception (return_ false)
        end)
       is_Exception (return_ false)).

(** [while elapsed < timeout: body; time.sleep(poll_interval);
    elapsed += poll_interval] *)
Fixpoint while_elapsed (fuel : nat) (timeout poll_interval : Z) (body : Stmt unit)
    (elapsed : Z) : Stmt unit :=
  if elapsed <? timeout then
    match fuel with
    | O => fun w => (OutOfFuel, w)
    | S fuel' =>
        body;;
        sleep env poll_interval;;
        while_elapsed fuel' timeout poll_interval body (elapsed + poll_interval)
    end
  else ret tt.

(** The rename and move of a downloaded file, lines 412-433 and
    728-751. *)
Definition archive (self : UnityBackup) (prefix target_dir backup_file : string)
    : Stmt unit :=
  try_except
    (d <- now env;;
     perform env (Makedirs target_dir);;
     shutil_move env (download_dir, backup_file)
       (target_dir, new_name prefix (unity_url self) d backup_file))
    is_Exception (return_ false);;
  return_ true.

(** One round of the wait loop, lines 402-433 and 718-751. *)
Definition poll (self : UnityBackup) (accepts : string -> bool)
    (prefix target_dir : string) (before_files : gset string) : Stmt unit :=
  after_files <- listdir env download_dir;;
  let new_files := after_files ∖ before_files in
  match first_accepted accepts (set_iter env new_files) with
  | Some backup_file =>
      if truthy backup_file then archive self prefix target_dir backup_file
      else ret tt
  | None => ret tt
  end.

(** The wait for a download, lines 393-437 and 709-755: the same in
    both methods but for the predicate, the prefix and the target. *)
Definition wait_for_download (self : UnityBackup) (accepts : string -> bool)
    (prefix target_dir : string) : Stmt unit :=
  before_files <- listdir env download_dir;;
  let timeout := 120 in
  let poll_interval := 2 in
  while_elapsed (Z.to_nat timeout) timeout poll_interval
    (poll self accepts prefix target_dir before_files) 0;;
  return_ false.

(** [UnityBackup.backup_workflow], lines 275-440 *)
Definition backup_workflow (self : UnityBackup) : Stmt bool :=
  call m_backup_workflow
    (try_except
       (let service_url :=
          Py.split_head (unity_url self) "/cas/login" +:+ "/index.html#lcn=SERVICE_TASK" in
        (* 1. the Service Task page *)
        try_except (perform env (Get service_url);; sleep env 5)
          is_Exception (return_ false);;
        (* 2. Save Configuration *)
        try_except
          (save_config_elem <- wait_until env 10 Clickable save_config_locator;;
           perform env (Click save_config_elem);;
           sleep env 2)
          is_Exception (return_ false);;
        (* 3. Execute *)
        try_except
          (execute_btn <-
             for_locators is_Exception 30 Clickable (scroll_and_click [2])
               execute_xpaths None;;
           match execute_btn with
           | None => raise (Err OtherException)
           | Some _ => ret tt
           end)
          is_Exception (save_debug "execute_button_fail";; return_ false);;
        (* 4. Create New *)
        try_except
          (create_new_btn <-
             for_locators is_Exception 10 Clickable (scroll_and_click [])
               create_new_selectors None;;
           match create_new_btn with
           | None => raise (Err OtherException)
           | Some _ => ret tt
           end)
          is_Exception (save_debug "create_new_button_fail";; return_ false);;
        (* 5. the download *)
        wait_for_download self is_config_backup config_prefix config_target_dir)
       is_Exception (return_ false)).

(** The last resort of the keystore steps, e.g. lines 502-517:
    [for el in candidates:
         try:
             if el.is_displayed() and name in el.text:
                 ...click...; found = True; break
         except Exception:
             continue]
    The result is [found]. *)
Fixpoint click_by_text (name : string) (candidates : list elem) : Stmt bool :=
  match candidates with
  | [] => ret false
  | el :: rest =>
      found <-
        try_except
          (shown <- ask env (IsDisplayed el) (fun h => displayed env h el);;
           named <- (if shown
                     then t <- ask env (GetText el) (fun h => text_of env h el);;
                          ret (Py.contains t name)
                     else ret false);;
           if named then
             (* the log line reads tag_name, text and the class attribute *)
             perform env (TagName el);;
             perform env (GetText el);;
             perform env (GetAttribute el "class");;
             scroll_and_click [2] el;;
             ret true
           else ret false)
          is_Exception (ret false);;
      if found then ret true else click_by_text name rest
  end.

(** One step of the keystore method: the chain of locators, then the
    last resort, then the debug capture (e.g. lines 482-540). *)
Definition click_named (name debug_name : string) (selectors : list locator) : Stmt unit :=
  btn <- for_locators is_Exception 10 Clickable (scroll_and_click [2]) selectors None;;
  match btn with
  | Some _ => ret tt
  | None =>
      try_except
        (let l := text_locator name in
         candidates <- ask env (FindElements l)
                         (fun h => map (Elem l) (seq 0 (found env h l)));;
         found <- click_by_text name candidates;;
         if found then ret tt
         else save_debug debug_name;; return_ false)
        is_Exception (return_ false)
  end.

(** [UnityBackup.encryption_keystore_backup], lines 442-755 *)
Definition encryption_keystore_backup (self : UnityBackup) : Stmt bool :=
  call m_encryption_keystore_backup
    ((* 1. Settings *)
     try_except
       (settings_btn <- wait_until env 10 Clickable settings_locator;;
        scroll_and_click [2] settings_btn)
       is_Exception (return_ false);;
     (* 2. Management *)
     try_except
       (try_except
          (body <- ask env (FindElement body_locator) (fun _ => Elem body_locator 0);;
           perform env (SendKeys body ESCAPE);;
           sleep env 1)
          is_Exception (ret tt);;
        click_named "Management" "management_not_found" management_selectors)
       is_Exception (return_ false);;
     (* 3. Encryption *)
     try_except
       (click_named "Encryption" "encryption_not_found" encryption_selectors)
       is_Exception (return_ false);;
     (* 4. Backup Keystore File *)
     try_except
       (click_named "Backup Keystore File" "backup_keystore_not_found"
          backup_keystore_selectors)
       is_Exception (return_ false);;
     (* 5. the download *)
     wait_for_download self is_keystore_backup keystore_prefix keystore_target_dir).

(** [UnityBackup.close], lines 757-767 *)
Definition close : Stmt unit :=
  _ <- call m_close
    (fun w =>
       if driver w
       then try_except (perform env Quit) is_Exception (ret tt) w
       else ret tt w);;
  ret tt.

(** [parse_arguments]: argparse either builds a namespace from the
    command line or ends the process with status 2. *)
Definition parse_arguments (cmdline : option Namespace) : Stmt Namespace :=
  match cmdline with
  | Some args => ret args
  | None => raise (SystemExit 2)
  end.

(** Lines 784-792 of [main]: the password.  The text of the exception,
    which the message of line 791 ends with, is left out. *)
Definition read_password (args : Namespace) : Stmt (option string) :=
  match ns_password_file args with
  | Some file =>
      if truthy file then
        try_except
          (content <- ask env (ReadFile file) (fun h => file_text env h file);;
           ret (Some (Py.strip content)))
          is_Exception
          (print env "Error reading password file";; raise (SystemExit 1))
      else ret (ns_password args)
  | None => ret (ns_password args)
  end.

(** Lines 797-817 of [main]: the steps after the driver has started. *)
Definition backup_steps (backup_creator : UnityBackup) : Stmt unit :=
  logged_in <- login backup_creator;;
  if logged_in then
    saved <- backup_workflow backup_creator;;
    if saved then
      print env "Backup workflow completed!";;
      try_except
        (let dashboard_url :=
           Py.split_head (unity_url backup_creator) "/cas/login"
           +:+ "/index.html#lcn=DASHBOARD" in
         perform env (Get dashboard_url);;
         sleep env 5)
        is_Exception (ret tt);;
      keys_saved <- encryption_keystore_backup backup_creator;;
      if keys_saved then print env "Encryption keystore backup completed!"
      else print env "Encryption keystore backup failed!"
    else print env "Backup workflow failed!"
  else ret tt.

(** Lines 794-821 of [main]: the workflow and its teardown. *)
Definition run (args : Namespace) (pw : option string) : Stmt unit :=
  backup_creator <- UnityBackup_init (ns_unity_url args) (ns_username args) pw
                      (ns_browser args);;
  try_finally
    (try_except
       (start_driver backup_creator;;
        backup_steps backup_creator)
       is_Exception (ret tt))
    close.

(** [main], lines 780-821 *)
Definition main (cmdline : option Namespace) : Stmt unit :=
  args <- parse_arguments cmdline;;
  pw <- read_password args;;
  run args pw.

End Program.

(** The exit status of the process, from the way [main] ends: an
    uncaught exception ends it with status 1, [sys.exit(n)] with [n]. *)
Definition exit_status (r : outcome unit) : option Z :=
  match r with
  | Normal _ | Return _ => Some 0
  | Raise (SystemExit n) => Some n
  | Raise (Err _) => Some 1
  | OutOfFuel => None
  end.

(** ** Observations on histories and outcomes *)

(** [emits P s]: whatever the world, [s] only adds calls that satisfy
    [P] to the history, removes none, and leaves [self.driver] set if
    it was. *)
Definition emits {A} (P : op -> bool) (s : Stmt A) : Prop :=
  forall w, exists t,
    hist (s w).2 = hist w ++ t /\ forallb P t = true
    /\ (driver w = true -> driver (s w).2 = true).

(** [ends ok returns s]: [s] never runs out of fuel, raises only
    exceptions that satisfy [ok], and executes a [return] only if
    [returns] is true. *)
Definition ends_in {A} (ok : exn -> bool) (returns : bool) (r : outcome A) : Prop :=
  match r with
  | OutOfFuel => False
  | Raise e => ok e = true
  | Return _ => returns = true
  | Normal _ => True
  end.

Definition ends {A} (ok : exn -> bool) (returns : bool) (s : Stmt A) : Prop :=
  forall w, ends_in ok returns (s w).1.

(** No exception at all. *)
Definition never (e : exn) : bool := false.

(** [sys.exit(1)] *)
Definition is_exit_1 (e : exn) : bool :=
  match e with
  | SystemExit 1 => true
  | _ => false
  end.

Definition method_eqb (a b : method) : bool :=
  match a, b with
  | m_start_driver, m_start_driver | m_login, m_login
  | m_backup_workflow, m_backup_workflow
  | m_encryption_keystore_backup, m_encryption_keystore_backup
  | m_close, m_close => true
  | _, _ => false
  end.

(** The calls of the method [m]: its entry, and no print. *)
Definition within (m : method) (o : op) : bool :=
  match o with
  | Enter m' => method_eqb m' m
  | Print _ => false
  | _ => true
  end.

Definition is_enter (m : method) (o : op) : bool :=
  match o with
  | Enter m' => method_eqb m' m
  | _ => false
  end.

(** The object [main] builds from the command line. *)
Definition creator (args : Namespace) (pw : option string) : UnityBackup :=
  mkUnityBackup
    (if Py.startswith (ns_unity_url args) "http" then ns_unity_url args
     else "https://" +:+ ns_unity_url args)
    (ns_username args) pw (Py.lower (ns_browser args)).

(** The world in which [main] enters its [try]: no driver yet. *)
Definition fresh (w : World) : World := mkWorld (hist w) (fs w) false.

(** The calls of the steps between startup and teardown. *)
Definition step_op (o : op) : bool :=
  negb (is_enter m_start_driver o) && negb (is_enter m_close o).

Definition is_print (msg : string) (o : op) : bool :=
  match o with
  | Print m => String.eqb m msg
  | _ => false
  end.

Definition is_move (o : op) : bool :=
  match o with
  | Move _ _ => true
  | _ => false
  end.

Definition failed : string := "Backup workflow failed!".
Definition completed : string := "Backup workflow completed!".

(** Neither the entry into the keystore backup nor the report of a
    failed configuration backup. *)
Definition calm (o : op) : bool :=
  negb (is_enter m_encryption_keystore_backup o) && negb (is_print failed o).

Definition not_failed (o : op) : bool := negb (is_print failed o).

(** The shape of what [backup_steps] adds to the history. *)
Definition shape (t : list op) : Prop :=
  exists t1 t2,
    t = t1 ++ t2 /\ forallb calm t1 = true
    /\ (t2 = [] \/ t2 = [Print failed]
        \/ exists t3, t2 = Print completed :: t3 /\ forallb not_failed t3 = true).

Definition shaped {A} (s : Stmt A) : Prop :=
  forall w, exists t, hist (s w).2 = hist w ++ t /\ shape t.

(** The seconds spent in [time.sleep]. *)
Definition slept (h : list op) : Z :=
  fold_right (fun o acc => match o with Sleep s => s + acc | _ => acc end) 0 h.

(** Every accepted name in the download directory is in [before_files]. *)
Definition settled (env : Env) (accepts : string -> bool) (before_files : gset string)
    (w : World) : Prop :=
  forall f, f ∈ dir_names (fs w) (download_dir env) -> accepts f = true -> f ∈ before_files.

(** The calls of a wait in which no file was picked. *)
Definition idle (o : op) : bool :=
  match o with
  | Listdir _ | Sleep _ => true
  | _ => false
  end.

(** The listing a round of the wait makes when it starts in [w]. *)
Definition listing (env : Env) (w : World) : gset string :=
  dir_names (fs (before env (Listdir (download_dir env)) w)) (download_dir env).

(** The round that starts in [w1] picks [f] and ends as its archiving does. *)
Definition picked (env : Env) (self : UnityBackup) (accepts : string -> bool)
    (prefix target_dir : string) (before_files : gset string) (w1 : World) (f : string)
    (r : outcome unit) (w' : World) : Prop :=
  first_accepted accepts (set_iter env (listing env w1 ∖ before_files)) = Some f
  /\ archive env self prefix target_dir f (before env (Listdir (download_dir env)) w1)
     = (r, w').

(** The string is made of digits and dots only. *)
Fixpoint dotted (s : string) : bool :=
  match s with
  | EmptyString => true
  | String c t => Py.digit_or_dot c && dotted t
  end.


Definition no_listdir (o : op) : bool :=
  match o with
  | Listdir _ => false
  | _ => true
  end.

Definition no_click (o : op) : bool :=
  match o with
  | Click _ => false
  | _ => true
  end.

(** First calls without a listing, then calls without a click. *)
Definition phased {A} (s : Stmt A) : Prop :=
  forall w, exists t1 t2,
    hist (s w).2 = hist w ++ t1 ++ t2
    /\ forallb no_listdir t1 = true /\ forallb no_click t2 = true.

(** The locators waited for, in the order of the waits. *)
Fixpoint waited (h : list op) : list locator :=
  match h with
  | [] => []
  | WaitUntil _ _ l :: t => l :: waited t
  | _ :: t => waited t
  end.

Definition no_wait (o : op) : bool :=
  match o with
  | WaitUntil _ _ _ => false
  | _ => true
  end.

(** The rounds of the loop over [locators] all end in [continue]: the
    value of the loop variable and the world after them. *)
Fixpoint continues (env : Env) (catches : exn -> bool) (timeout : Z) (c : cond)
    (act : elem -> Stmt unit) (locators : list locator) (var : option elem) (w : World)
    : option (option elem * World) :=
  match locators with
  | [] => Some (var, w)
  | l :: rest =>
      match try_locator env catches timeout c act var l w with
      | (Normal (Continue var'), w') => continues env catches timeout c act rest var' w'
      | _ => None
      end
  end.

(** The line feed. *)
Definition nl : string := String "010" EmptyString.

(** The first line of a text: what comes before its first line feed. *)
Fixpoint first_line (s : string) : string :=
  match s with
  | EmptyString => EmptyString
  | String c t => if Ascii.eqb c "010" then EmptyString else String c (first_line t)
  end.

(** The rest of the text, from its first line feed on. *)
Fixpoint after_first_line (s : string) : string :=
  match s with
  | EmptyString => EmptyString
  | String c t => if Ascii.eqb c "010" then s else after_first_line t
  end.

(** Whitespace only. *)
Fixpoint blank (s : string) : bool :=
  match s with
  | EmptyString => true
  | String c t => Py.isspace c && blank t
  end.

(** ** Example worlds *)

Definition ex_home : string := "/home/backup".

Definition ex_downloads : string := ex_home +:+ "/Downloads".

(** An environment in which elements are found at once, the body text
    is empty, the clock stands still and sets are iterated in the order
    of [elements]; the failures, the files that arrive and the content
    of the password file are left open. *)
Definition ex_env (failing : list op -> op -> option err)
    (arriving : list op -> gmap path string -> gmap path string)
    (password_file : string) : Env :=
  mkEnv ex_home "/srv/unity"
    failing arriving
    (fun _ _ => true) (fun _ _ => EmptyString) (fun _ _ => 0%nat) (fun _ _ => true)
    (fun _ => "<html></html>") (fun _ => EmptyString)
    (fun _ _ => password_file)
    (fun _ => Py.mkDatetime 2024 3 7 9 5 0)
    elements.

Definition nothing_fails (h : list op) (o : op) : option err := None.

Definition nothing_arrives (h : list op) (files : gmap path string) : gmap path string :=
  files.

(** The download directory holds [a.txt]; there is no driver. *)
Definition ex_world : World :=
  mkWorld [] {[ (ex_downloads, "a.txt") := "text" ]} false.

Definition ex_self : UnityBackup :=
  mkUnityBackup "https://10.0.0.5" "admin" (Some "secret") "edge".

Definition ex_args : Namespace :=
  mkNamespace "10.0.0.5" "admin" None (Some "password.txt") "edge".

Definition listed (h : list op) : bool :=
  existsb (fun o => match o with Listdir _ => true | _ => false end) h.

(** The file [name] is in the download directory once the directory
    has been listed. *)
Definition arrives_after_listing (name : string) (h : list op)
    (files : gmap path string) : gmap path string :=
  if listed h then <[(ex_downloads, name) := "data"]> files else files.

Definition clicked (l : locator) (h : list op) : bool :=
  existsb (fun o => match o with
                    | Click (Elem (_, s) _) => String.eqb s l.2
                    | _ => false
                    end) h.

(** The file [name] is in the download directory once the element
    found by [l] has been clicked. *)
Definition arrives_on_click (l : locator) (name : string) (h : list op)
    (files : gmap path string) : gmap path string :=
  if clicked l h then <[(ex_downloads, name) := "data"]> files else files.

Definition create_new_first : locator := (ID, "button-1339").

Definition execute_first : locator :=
  (XPATH, "/html/body/div[1]/div[3]/div[2]/div/div[2]/div/div/div[2]/div/div/div/div/div[1]/div/div/div/div[1]/div/div/div/div/div[2]/div/div/div/div/div/div/div/div/div/div[3]/div/div/div/div/div[2]/div/div/a/span/span/span[2]").

Definition execute_second : locator := (XPATH, "//span[@id='button-1512-btnEl']").

(** The click on the element found by [l] is intercepted. *)
Definition click_fails (l : locator) (h : list op) (o : op) : option err :=
  match o with
  | Click (Elem (_, s) _) => if String.eqb s l.2 then Some WebDriverException else None
  | _ => None
  end.

Definition mkdir_fails (h : list op) (o : op) : option err :=
  match o with
  | Mkdir _ => Some OtherException
  | _ => None
  end.

Definition move_fails (h : list op) (o : op) : option err :=
  match o with
  | Move _ _ => Some OtherException
  | _ => None
  end.

Definition login_button_first : elem := Elem (XPATH, "//*[@id='submit']") 0.

Definition is_op (o : op) (h : list op) : bool :=
  existsb (fun o' => match o, o' with
                     | Click (Elem (_, s) _), Click (Elem (_, s') _) => String.eqb s s'
                     | Sleep a, Sleep b => a =? b
                     | _, _ => false
                     end) h.

(** ** Further observations *)

(** Not the sleep of 20 seconds that follows the click on the login button. *)
Definition no_settle (o : op) : bool :=
  match o with
  | Sleep 20 => false
  | _ => true
  end.

(** [returns_only P s]: the values [s] returns satisfy [P]. *)
Definition returns_only {A} (P : bool -> bool) (s : Stmt A) : Prop :=
  forall w, match (s w).1 with
            | Return b => P b = true
            | _ => True
            end.

(** [settles env s]: either [s] never sleeps the 20 seconds and does not
    return True; or it sleeps them once and then returns True exactly
    when the debug directory can be made. *)
Definition settles {A} (env : Env) (s : Stmt A) : Prop :=
  forall w,
    (exists t,
        hist (s w).2 = hist w ++ t /\ forallb no_settle t = true
        /\ (s w).1 <> Return true)
    \/ (exists t1 t2,
          hist (s w).2 = hist w ++ t1 ++ Sleep 20 :: t2
          /\ forallb no_settle t1 = true /\ forallb no_settle t2 = true
          /\ match fails env (hist w ++ t1 ++ [Sleep 20]) (Mkdir (debug_dir env)) with
             | None => (s w).1 = Return true
             | Some _ => (s w).1 = Return false \/ exists e, (s w).1 = Raise (Err e)
             end).

Definition any_exn (e : exn) : bool := true.

(** The string holds the character [c]. *)
Fixpoint has_char (c : ascii) (s : string) : bool :=
  match s with
  | EmptyString => false
  | String a t => Ascii.eqb a c || has_char c t
  end.

(** Only digits and underscores. *)
Fixpoint digits_and_underscores (s : string) : bool :=
  match s with
  | EmptyString => true
  | String a t => (Py.is_digit a || Ascii.eqb a "_") && digits_and_underscores t
  end.

(** The string starts with whitespace. *)
Definition starts_with_space (s : string) : bool :=
  match s with
  | EmptyString => false
  | String c _ => Py.isspace c
  end.

(** The string ends with whitespace. *)
Fixpoint ends_with_space (s : string) : bool :=
  match s with
  | EmptyString => false
  | String c EmptyString => Py.isspace c
  | String _ t => ends_with_space t
  end.

Definition no_sleep (o : op) : bool :=
  match o with
  | Sleep _ => false
  | _ => true
  end.


(** The text typed into the page is the user name or the password. *)
Definition option_eqb (a b : option string) : bool :=
  match a, b with
  | Some x, Some y => String.eqb x y
  | None, None => true
  | _, _ => false
  end.

Definition types_credentials (self : UnityBackup) (o : op) : bool :=
  match o with
  | SendKeys _ (Text s) =>
      option_eqb s (Some (username self)) || option_eqb s (password self)
  | _ => true
  end.

(** The last character of a string *)
Fixpoint last_char (s : string) : option ascii :=
  match s with
  | "" => None
  | String c s' =>
      match last_char s' with
      | None => Some c
      | x => x
      end
  end.

Definition types_nothing (o : op) : bool :=
  match o with
  | SendKeys _ (Text _) => false
  | _ => true
  end.

(** What the last resort does with the candidate it clicks, after the
    history [h]: it asks whether the candidate is displayed and for its
    text, reads what the log line needs, scrolls, clicks and waits. *)
Definition clicked_by_text (el : elem) : list op :=
  [IsDisplayed el; GetText el; TagName el; GetText el; GetAttribute el "class";
   ExecuteScript (ScrollIntoView el); Sleep 1; Click el; Sleep 2].

(** One attempt of a clicking chain on the locator [l] after the
    history [h], read off the environment: the calls it makes, and the
    error that ends it, if the wait, the scroll or the click raises. *)
Definition click_attempt (env : Env) (timeout : Z) (c : cond) (settle : list Z)
    (l : locator) (h : list op) : list op * option err :=
  let e := Elem l 0 in
  let wait := WaitUntil timeout c l in
  let scroll := ExecuteScript (ScrollIntoView e) in
  match fails env h wait with
  | Some x => ([wait], Some x)
  | None =>
      match fails env (h ++ [wait]) scroll with
      | Some x => ([wait; scroll], Some x)
      | None =>
          match fails env (h ++ [wait; scroll; Sleep 1]) (Click e) with
          | Some x => ([wait; scroll; Sleep 1; Click e], Some x)
          | None => ([wait; scroll; Sleep 1; Click e] ++ map Sleep settle, None)
          end
      end
  end.

(** The history after the attempts on [pre], made one after the other
    from the history [h], when each of them raises; [None] when one of
    them raises nothing. *)
Fixpoint after_failed_clicks (env : Env) (timeout : Z) (c : cond) (settle : list Z)
    (pre : list locator) (h : list op) : option (list op) :=
  match pre with
  | [] => Some h
  | l :: rest =>
      match click_attempt env timeout c settle l h with
      | (t, Some _) => after_failed_clicks env timeout c settle rest (h ++ t)
      | (_, None) => None
      end
  end.


(** The last call of the history of [w] is a [shutil.move] that did not
    raise, and the file is at its destination. *)
Definition archived (env : Env) (w : World) : Prop :=
  exists h src dst content,
    hist w = h ++ [Move src dst]
    /\ fails env h (Move src dst) = None
    /\ fs w !! dst = Some content.

(** [s] executes [return True] only in a world that satisfies [Q]. *)
Definition true_after {A} (Q : World -> Prop) (s : Stmt A) : Prop :=
  forall w, (s w).1 = Return true -> Q (s w).2.

(** [s] leaves the file at [p] as it is. *)
Definition keeps {A} (p : path) (s : Stmt A) : Prop :=
  forall w, fs (s w).2 !! p = fs w !! p.

(** * Properties *)

Section Emits.

Variable env : Env.
Variable P : op -> bool.

Lemma emits_nothing {A} (s : Stmt A) :
  (forall w, hist (s w).2 = hist w /\ driver (s w).2 = driver w) -> emits P s.
Proof.
  intros H w. exists []. destruct (H w) as [-> ->]. rewrite app_nil_r. auto.
Qed.

Lemma emits_one {A} (s : Stmt A) (o : op) :
  P o = true ->
  (forall w, hist (s w).2 = hist w ++ [o] /\ (driver w = true -> driver (s w).2 = true)) ->
  emits P s.
Proof.
  intros HP H w. exists [o]. destruct (H w) as [-> Hd].
  simpl. rewrite HP. auto.
Qed.

Lemma emits_seq (w w1 w2 : World) (t t' : list op) :
  hist w1 = hist w ++ t /\ forallb P t = true /\ (driver w = true -> driver w1 = true) ->
  hist w2 = hist w1 ++ t' /\ forallb P t' = true /\ (driver w1 = true -> driver w2 = true) ->
  hist w2 = hist w ++ (t ++ t') /\ forallb P (t ++ t') = true
  /\ (driver w = true -> driver w2 = true).
Proof.
  intros (H1 & H2 & H3) (H4 & H5 & H6).
  rewrite H4, H1, app_assoc, forallb_app, H2, H5. auto.
Qed.

Lemma emits_ret {A} (a : A) : emits P (ret a).
Proof. now apply emits_nothing. Qed.

Lemma emits_return {A} (b : bool) : emits P (@return_ A b).
Proof. now apply emits_nothing. Qed.

Lemma emits_raise {A} (e : exn) : emits P (@raise A e).
Proof. now apply emits_nothing. Qed.

Lemma emits_out_of_fuel {A} : emits P (fun w => (@OutOfFuel A, w)).
Proof. now apply emits_nothing. Qed.

Lemma emits_bind {A B} (m : Stmt A) (k : A -> Stmt B) :
  emits P m -> (forall a, emits P (k a)) -> emits P (bind m k).
Proof.
  intros Hm Hk w. unfold bind. destruct (Hm w) as (t & Ht).
  destruct (m w) as [[a|b|e|] w1]; simpl in *; eauto.
  destruct (Hk a w1) as (t' & Ht').
  exists (t ++ t'). eapply emits_seq; eauto.
Qed.

Lemma emits_try_except {A} (body handler : Stmt A) (catches : exn -> bool) :
  emits P body -> emits P handler -> emits P (try_except body catches handler).
Proof.
  intros Hb Hh w. unfold try_except. destruct (Hb w) as (t & Ht).
  destruct (body w) as [[a|b|e|] w1]; simpl in *; eauto.
  destruct (catches e); simpl; eauto.
  destruct (Hh w1) as (t' & Ht').
  exists (t ++ t'). eapply emits_seq; eauto.
Qed.

Lemma emits_try_finally {A} (body : Stmt A) (fin : Stmt unit) :
  emits P body -> emits P fin -> emits P (try_finally body fin).
Proof.
  intros Hb Hf w. unfold try_finally. destruct (Hb w) as (t & Ht).
  destruct (body w) as [r w1]; simpl in *.
  destruct (Hf w1) as (t' & Ht').
  pose proof (emits_seq _ _ _ _ _ Ht Ht') as H.
  destruct r; simpl; eauto; destruct (fin w1) as [[u|b'|e'|] w2]; simpl in *; eauto.
Qed.

Lemma emits_call (m : method) (body : Stmt unit) :
  P (Enter m) = true -> emits P body -> emits P (call m body).
Proof.
  intros Hm Hb w. unfold call.
  destruct (Hb (mkWorld (hist w ++ [Enter m]) (fs w) (driver w))) as (t & Ht & HP & Hd).
  simpl in Ht, Hd. exists (Enter m :: t). simpl. rewrite Hm, HP.
  destruct (body _) as [[a|b|e|] w1]; simpl in *; rewrite Ht, <- app_assoc; auto.
Qed.

Lemma emits_perform (o : op) : P o = true -> emits P (perform env o).
Proof.
  intros HP. apply (emits_one _ o HP). intros w. unfold perform.
  now destruct (fails env (hist w) o).
Qed.

Lemma emits_ask {A} (o : op) (f : list op -> A) : P o = true -> emits P (ask env o f).
Proof.
  intros HP. apply (emits_one _ o HP). intros w. unfold ask.
  now destruct (fails env (hist w) o).
Qed.

Lemma emits_wait_until timeout c l :
  P (WaitUntil timeout c l) = true -> emits P (wait_until env timeout c l).
Proof. apply emits_ask. Qed.

Lemma emits_sleep secs : P (Sleep secs) = true -> emits P (sleep env secs).
Proof. intros HP. now apply (emits_one _ _ HP). Qed.

Lemma emits_print msg : P (Print msg) = true -> emits P (print env msg).
Proof. intros HP. now apply (emits_one _ _ HP). Qed.

Lemma emits_now : P Now = true -> emits P (now env).
Proof. intros HP. now apply (emits_one _ _ HP). Qed.

Lemma emits_path_exists p : P (PathExists p) = true -> emits P (path_exists env p).
Proof. intros HP. now apply (emits_one _ _ HP). Qed.

Lemma emits_listdir dir : P (Listdir dir) = true -> emits P (listdir env dir).
Proof.
  intros HP. apply (emits_one _ _ HP). intros w. unfold listdir.
  now destruct (fails env (hist w) _).
Qed.

Lemma emits_write_file o p content : P o = true -> emits P (write_file env o p content).
Proof.
  intros HP. apply (emits_one _ _ HP). intros w. unfold write_file.
  now destruct (fails env (hist w) _).
Qed.

Lemma emits_shutil_move src dst : P (Move src dst) = true -> emits P (shutil_move env src dst).
Proof.
  intros HP. apply (emits_one _ _ HP). intros w. unfold shutil_move.
  destruct (fails env (hist w) _); [easy|]. simpl. now destruct (_ !! src).
Qed.

Lemma emits_start_browser b : P (StartBrowser b) = true -> emits P (start_browser env b).
Proof.
  intros HP. apply (emits_one _ _ HP). intros w. unfold start_browser.
  now destruct (fails env (hist w) _).
Qed.

Lemma emits_by_driver {A} (s1 s2 : Stmt A) :
  emits P s1 -> emits P s2 -> emits P (fun w => if driver w then s1 w else s2 w).
Proof.
  intros H1 H2 w. specialize (H1 w). specialize (H2 w).
  destruct (driver w); [apply H1 | apply H2].
Qed.

End Emits.

Section Ends.

Variable env : Env.
Variable ok : exn -> bool.
Variable returns : bool.

Lemma ends_ret {A} (a : A) : ends ok returns (ret a).
Proof. now intros w. Qed.

Lemma ends_return {A} (b : bool) : ends ok true (@return_ A b).
Proof. now intros w. Qed.

Lemma ends_raise {A} (e : exn) : ok e = true -> ends ok returns (@raise A e).
Proof. now intros H w. Qed.

Lemma ends_bind {A B} (m : Stmt A) (k : A -> Stmt B) :
  ends ok returns m -> (forall a, ends ok returns (k a)) -> ends ok returns (bind m k).
Proof.
  intros Hm Hk w. unfold bind. specialize (Hm w).
  destruct (m w) as [[a|b|e|] w1]; simpl in *; auto. apply Hk.
Qed.

Lemma ends_try_except {A} (body handler : Stmt A) (catches : exn -> bool) :
  ends (fun e => catches e || ok e) returns body -> ends ok returns handler ->
  ends ok returns (try_except body catches handler).
Proof.
  intros Hb Hh w. unfold try_except. specialize (Hb w).
  destruct (body w) as [[a|b|e|] w1]; simpl in *; auto.
  destruct (catches e); simpl in *; auto; apply Hh.
Qed.

Lemma ends_call (m : method) (body : Stmt unit) :
  ends ok true body -> ends ok returns (call m body).
Proof.
  intros Hb w. unfold call.
  specialize (Hb (mkWorld (hist w ++ [Enter m]) (fs w) (driver w))).
  destruct (body _) as [[a|b|e|] w1]; simpl in *; auto.
Qed.

Lemma ends_sleep secs : ends ok returns (sleep env secs).
Proof. now intros w. Qed.

Lemma ends_print msg : ends ok returns (print env msg).
Proof. now intros w. Qed.

Lemma ends_now : ends ok returns (now env).
Proof. now intros w. Qed.

Lemma ends_path_exists p : ends ok returns (path_exists env p).
Proof. now intros w. Qed.

Lemma ends_init url user pw br : ends ok returns (UnityBackup_init url user pw br).
Proof. now intros w. Qed.

Lemma ends_by_driver {A} (s1 s2 : Stmt A) :
  ends ok returns s1 -> ends ok returns s2 ->
  ends ok returns (fun w => if driver w then s1 w else s2 w).
Proof. intros H1 H2 w. destruct (driver w); [apply H1 | apply H2]. Qed.

(** The calls to the outside raise an [Exception]. *)
Hypothesis ok_err : forall e, ok (Err e) = true.

Lemma ends_perform (o : op) : ends ok returns (perform env o).
Proof. intros w. unfold perform. destruct (fails env (hist w) o); simpl; auto. Qed.

Lemma ends_ask {A} (o : op) (f : list op -> A) : ends ok returns (ask env o f).
Proof. intros w. unfold ask. destruct (fails env (hist w) o); simpl; auto. Qed.

Lemma ends_wait_until timeout c l : ends ok returns (wait_until env timeout c l).
Proof. apply ends_ask. Qed.

Lemma ends_listdir dir : ends ok returns (listdir env dir).
Proof. intros w. unfold listdir. destruct (fails env (hist w) _); simpl; auto. Qed.

Lemma ends_write_file o p content : ends ok returns (write_file env o p content).
Proof. intros w. unfold write_file. destruct (fails env (hist w) _); simpl; auto. Qed.

Lemma ends_shutil_move src dst : ends ok returns (shutil_move env src dst).
Proof.
  intros w. unfold shutil_move. destruct (fails env (hist w) _); simpl; auto.
  destruct (_ !! src); simpl; auto.
Qed.

Lemma ends_start_browser b : ends ok returns (start_browser env b).
Proof. intros w. unfold start_browser. destruct (fails env (hist w) _); simpl; auto. Qed.

End Ends.

Lemma ends_weaken {A} (ok ok' : exn -> bool) (returns returns' : bool) (s : Stmt A) :
  (forall e, ok e = true -> ok' e = true) -> (returns = true -> returns' = true) ->
  ends ok returns s -> ends ok' returns' s.
Proof.
  intros H Hr Hs w. specialize (Hs w). destruct (s w).1 as [a|b|e|]; simpl in *; auto.
Qed.

(** ** Facts about the string functions *)

Lemma startswith_spec (s p : string) :
  Py.startswith s p = true <-> exists q, s = p +:+ q.
Proof.
  revert s. induction p as [|a p IH]; intros s; simpl.
  - split; [now exists s | reflexivity].
  - destruct s as [|b s].
    + split; [discriminate | intros [q Hq]; discriminate].
    + rewrite andb_true_iff, IH, Ascii.eqb_eq. split.
      * intros [-> [q ->]]. eauto.
      * intros [q Hq]. injection Hq as -> ->. eauto.
Qed.

Lemma endswith_spec (s suf : string) :
  Py.endswith s suf = true <-> exists p, s = p +:+ suf.
Proof.
  induction s as [|c s IH]; cbn [Py.endswith].
  - rewrite orb_false_r, String.eqb_eq. split.
    + intros <-. now exists "".
    + intros [[|? ?] H]; simpl in H; [auto | discriminate].
  - rewrite orb_true_iff, IH, String.eqb_eq. split.
    + intros [<- | [p ->]]; [now exists "" | now exists (String c p)].
    + intros [[|a p] H]; simpl in H; [auto|].
      injection H as -> ->. right. eauto.
Qed.

Lemma contains_spec (s sub : string) :
  Py.contains s sub = true <-> exists p q, s = p +:+ sub +:+ q.
Proof.
  induction s as [|c s IH]; cbn [Py.contains].
  - rewrite orb_false_r, startswith_spec. split.
    + intros [q Hq]. now exists "", q.
    + intros ([|? ?] & q & H); simpl in H; [eauto | discriminate].
  - rewrite orb_true_iff, IH, startswith_spec. split.
    + intros [[q Hq] | (p & q & ->)]; [now exists "", q | now exists (String c p), q].
    + intros ([|a p] & q & H); simpl in H; [eauto|].
      injection H as -> ->. right. eauto.
Qed.

Lemma lower_app (a b : string) : Py.lower (a +:+ b) = Py.lower a +:+ Py.lower b.
Proof. induction a as [|c a IH]; simpl; [reflexivity | now rewrite IH]. Qed.

Lemma endswith_app (a b : string) : Py.endswith (a +:+ b) b = true.
Proof. apply endswith_spec. eauto. Qed.

Lemma accepted_is_truthy_config f : is_config_backup f = true -> truthy f = true.
Proof. now destruct f. Qed.

Lemma accepted_is_truthy_keystore f : is_keystore_backup f = true -> truthy f = true.
Proof. now destruct f. Qed.

(** ** The loops *)

Section Loops.

Variable env : Env.

Lemma emits_scroll_and_click P settle e :
  P (ExecuteScript (ScrollIntoView e)) = true -> P (Sleep 1) = true ->
  P (Click e) = true -> forallb (fun s => P (Sleep s)) settle = true ->
  emits P (scroll_and_click env settle e).
Proof.
  intros H1 H2 H3 H4. unfold scroll_and_click.
  apply emits_bind; [now apply emits_perform | intros _].
  apply emits_bind; [now apply emits_sleep | intros _].
  apply emits_bind; [now apply emits_perform | intros _].
  induction settle as [|s settle IH]; simpl in *; [apply emits_ret|].
  apply andb_true_iff in H4 as [Hs H4].
  apply emits_bind; [now apply emits_sleep | intros _; auto].
Qed.

Lemma ends_scroll_and_click ok returns settle e :
  (forall x, ok (Err x) = true) -> ends ok returns (scroll_and_click env settle e).
Proof.
  intros Hok. unfold scroll_and_click.
  apply ends_bind; [now apply ends_perform | intros _].
  apply ends_bind; [now apply ends_sleep | intros _].
  apply ends_bind; [now apply ends_perform | intros _].
  induction settle as [|s settle IH]; simpl; [apply ends_ret|].
  apply ends_bind; [now apply ends_sleep | intros _; auto].
Qed.

Lemma emits_for_locators P catches timeout c act locators var :
  (forall l, P (WaitUntil timeout c l) = true) ->
  (forall e, emits P (act e)) ->
  emits P (for_locators env catches timeout c act locators var).
Proof.
  intros HP Hact. revert var.
  induction locators as [|l rest IH]; intros var; simpl; [apply emits_ret|].
  apply emits_bind.
  - unfold try_locator. apply emits_try_except; [|apply emits_ret].
    apply emits_bind; [now apply emits_wait_until | intros e].
    apply emits_try_except; [|apply emits_ret].
    apply emits_bind; [apply Hact | intros _; apply emits_ret].
  - intros [e|var']; [apply emits_ret | apply IH].
Qed.

Lemma ends_for_locators ok returns catches timeout c act locators var :
  (forall x, ok (Err x) = true) ->
  (forall e, ends (fun x => catches x || ok x) returns (act e)) ->
  ends ok returns (for_locators env catches timeout c act locators var).
Proof.
  intros Hok Hact. revert var.
  induction locators as [|l rest IH]; intros var; simpl; [apply ends_ret|].
  apply ends_bind.
  - unfold try_locator. apply ends_try_except; [|apply ends_ret].
    apply ends_bind.
    + apply ends_wait_until. intros x. now rewrite Hok, orb_true_r.
    + intros e. apply ends_try_except; [|apply ends_ret].
      apply ends_bind; [|intros _; apply ends_ret].
      eapply ends_weaken; [| |apply Hact]; [|auto].
      intros x Hx. simpl. now rewrite Hx, orb_true_r.
  - intros [e|var']; [apply ends_ret | apply IH].
Qed.

Lemma emits_while_elapsed P fuel timeout poll_interval body elapsed :
  P (Sleep poll_interval) = true -> emits P body ->
  emits P (while_elapsed env fuel timeout poll_interval body elapsed).
Proof.
  intros HP Hb. revert elapsed.
  induction fuel as [|fuel IH]; intros elapsed; simpl;
    destruct (elapsed <? timeout); try apply emits_ret; [apply emits_out_of_fuel|].
  apply emits_bind; [apply Hb | intros _].
  apply emits_bind; [now apply emits_sleep | intros _; apply IH].
Qed.

(** The fuel is enough when it covers the rounds that are left. *)
Lemma ends_while_elapsed ok returns fuel timeout poll_interval body elapsed :
  0 < poll_interval -> timeout - elapsed <= Z.of_nat fuel * poll_interval ->
  ends ok returns body ->
  ends ok returns (while_elapsed env fuel timeout poll_interval body elapsed).
Proof.
  intros Hpos Hfuel Hb. revert elapsed Hfuel.
  induction fuel as [|fuel IH]; intros elapsed Hfuel; simpl;
    destruct (Z.ltb_spec elapsed timeout); try apply ends_ret; [lia|].
  apply ends_bind; [apply Hb | intros _].
  apply ends_bind; [apply ends_sleep | intros _; apply IH; lia].
Qed.

End Loops.

(** ** The methods *)

Ltac emits_step :=
  first
    [ apply emits_ret | apply emits_return | apply emits_raise
    | apply emits_try_except
    | apply emits_call; [reflexivity|]
    | apply emits_perform; reflexivity
    | apply emits_wait_until; reflexivity
    | apply emits_ask; reflexivity
    | apply emits_sleep; reflexivity
    | apply emits_print; reflexivity
    | apply emits_now; reflexivity
    | apply emits_path_exists; reflexivity
    | apply emits_listdir; reflexivity
    | apply emits_write_file; reflexivity
    | apply emits_shutil_move; reflexivity
    | apply emits_start_browser; reflexivity
    | apply emits_scroll_and_click; reflexivity
    | apply emits_for_locators; [intros ?; reflexivity | intros ?]
    | apply emits_while_elapsed; [reflexivity|]
    | apply emits_bind; [|intros ?]
    | match goal with
      | |- emits _ (match ?x with _ => _ end) => destruct x
      end ].

Ltac ok_err := intros []; reflexivity.

Ltac ends_step :=
  first
    [ apply ends_ret | apply ends_return
    | apply ends_raise; reflexivity
    | apply ends_try_except
    | apply ends_call
    | apply ends_perform; ok_err
    | apply ends_wait_until; ok_err
    | apply ends_ask; ok_err
    | apply ends_sleep
    | apply ends_print
    | apply ends_now
    | apply ends_path_exists
    | apply ends_listdir; ok_err
    | apply ends_write_file; ok_err
    | apply ends_shutil_move; ok_err
    | apply ends_start_browser; ok_err
    | apply ends_scroll_and_click; ok_err
    | apply ends_for_locators; [ok_err | intros ?]
    | apply ends_while_elapsed; [lia | simpl; lia |]
    | apply ends_bind; [|intros ?]
    | match goal with
      | |- ends _ _ (match ?x with _ => _ end) => destruct x
      end ].

Section Methods.

Variable env : Env.
Variable self : UnityBackup.

Lemma emits_save_debug P name :
  P (Mkdir (debug_dir env)) = true -> P Now = true ->
  (forall p, P (WritePageSource p) = true) -> (forall p, P (SaveScreenshot p) = true) ->
  emits P (save_debug env name).
Proof.
  intros H1 H2 H3 H4. unfold save_debug.
  apply emits_bind; [now apply emits_perform | intros _].
  apply emits_bind; [now apply emits_now | intros d].
  apply emits_bind; [|intros _]; apply emits_try_except;
    try apply emits_ret; now apply emits_write_file.
Qed.

Lemma ends_save_debug ok returns name :
  (forall x, ok (Err x) = true) -> ends ok returns (save_debug env name).
Proof.
  intros Hok. unfold save_debug.
  apply ends_bind; [now apply ends_perform | intros _].
  apply ends_bind; [apply ends_now | intros d].
  apply ends_bind; [|intros _]; apply ends_try_except;
    try apply ends_ret; apply ends_write_file; intros x; reflexivity.
Qed.

Lemma ends_login : ends never false (login env self).
Proof.
  unfold login.
  repeat first [ apply ends_save_debug; ok_err | ends_step ].
Qed.

Lemma ends_wait_for_download ok accepts prefix target_dir :
  (forall x, ok (Err x) = true) ->
  ends ok true (wait_for_download env self accepts prefix target_dir).
Proof.
  intros Hok. unfold wait_for_download, poll, archive.
  apply ends_bind; [now apply ends_listdir | intros before_files].
  apply ends_bind; [|intros _; apply ends_return].
  apply ends_while_elapsed; [lia | simpl; lia |].
  apply ends_bind; [now apply ends_listdir | intros after_files].
  destruct (first_accepted _ _) as [f|]; [|apply ends_ret].
  destruct (truthy f); [|apply ends_ret].
  apply ends_bind; [|intros _; apply ends_return].
  repeat ends_step.
Qed.

Lemma ends_backup_workflow : ends never false (backup_workflow env self).
Proof.
  unfold backup_workflow.
  repeat first [ apply ends_save_debug; ok_err
               | apply ends_wait_for_download; ok_err
               | ends_step ].
Qed.

Lemma ends_click_by_text ok returns name candidates :
  (forall x, ok (Err x) = true) -> ends ok returns (click_by_text env name candidates).
Proof.
  intros Hok. induction candidates as [|el rest IH]; simpl; [apply ends_ret|].
  apply ends_bind; [|intros [|]; [apply ends_ret | apply IH]].
  apply ends_try_except; [|apply ends_ret].
  assert (forall x, is_Exception (Err x) || ok (Err x) = true) as Hok'
    by (intros x; reflexivity).
  repeat first
    [ apply ends_ret | apply ends_perform; exact Hok' | apply ends_ask; exact Hok'
    | apply ends_scroll_and_click; exact Hok'
    | apply ends_bind; [|intros ?]
    | match goal with |- ends _ _ (match ?x with _ => _ end) => destruct x end ].
Qed.

Lemma ends_click_named ok name debug_name selectors :
  (forall x, ok (Err x) = true) ->
  ends ok true (click_named env name debug_name selectors).
Proof.
  intros Hok. unfold click_named.
  apply ends_bind.
  - apply ends_for_locators; [exact Hok | intros e].
    apply ends_scroll_and_click. intros x. reflexivity.
  - intros [e|]; [apply ends_ret|].
    apply ends_try_except; [|apply ends_return].
    apply ends_bind; [apply ends_ask; intros x; reflexivity | intros candidates].
    apply ends_bind; [apply ends_click_by_text; intros x; reflexivity | intros [|]].
    + apply ends_ret.
    + apply ends_bind; [apply ends_save_debug; intros x; reflexivity
                       | intros _; apply ends_return].
Qed.

Lemma ends_encryption_keystore_backup :
  ends is_Exception false (encryption_keystore_backup env self).
Proof.
  unfold encryption_keystore_backup.
  repeat first [ apply ends_click_named; ok_err
               | apply ends_wait_for_download; ok_err
               | ends_step ].
Qed.

Lemma ends_start_driver : ends is_exit_1 false (start_driver env self).
Proof. unfold start_driver. repeat ends_step. Qed.

Lemma ends_close : ends never false (close env).
Proof.
  unfold close. apply ends_bind; [|intros _; apply ends_ret].
  apply ends_call. apply ends_by_driver; repeat ends_step.
Qed.

Lemma ends_backup_steps : ends is_Exception false (backup_steps env self).
Proof.
  unfold backup_steps.
  apply ends_bind.
  { eapply ends_weaken; [| |apply ends_login]; [discriminate | auto]. }
  intros [|]; [|apply ends_ret].
  apply ends_bind.
  { eapply ends_weaken; [| |apply ends_backup_workflow]; [discriminate | auto]. }
  intros [|]; [|apply ends_print].
  apply ends_bind; [apply ends_print | intros _].
  apply ends_bind; [repeat ends_step | intros _].
  apply ends_bind; [apply ends_encryption_keystore_backup | intros [|]; apply ends_print].
Qed.

Lemma emits_click_by_text P name candidates :
  (forall e, P (IsDisplayed e) = true) -> (forall e, P (GetText e) = true) ->
  (forall e, P (TagName e) = true) -> (forall e n, P (GetAttribute e n) = true) ->
  (forall e, P (ExecuteScript (ScrollIntoView e)) = true) ->
  (forall e, P (Click e) = true) -> (forall n, P (Sleep n) = true) ->
  emits P (click_by_text env name candidates).
Proof.
  intros H1 H2 H3 H4 H5 H6 H7.
  induction candidates as [|el rest IH]; simpl; [apply emits_ret|].
  apply emits_bind; [|intros [|]; [apply emits_ret | apply IH]].
  apply emits_try_except; [|apply emits_ret].
  repeat first
    [ apply emits_ret | apply emits_perform; auto | apply emits_ask; auto
    | apply emits_scroll_and_click; simpl; rewrite ?H7; auto
    | apply emits_bind; [|intros ?]
    | match goal with |- emits _ (match ?x with _ => _ end) => destruct x end ].
Qed.

End Methods.

Ltac emits_tac :=
  repeat first
    [ apply emits_save_debug;
      [reflexivity | reflexivity | intros ?; reflexivity | intros ?; reflexivity]
    | apply emits_click_by_text; intros; reflexivity
    | emits_step ].

Section MethodCalls.

Variable env : Env.
Variable self : UnityBackup.

Lemma emits_login : emits (within m_login) (login env self).
Proof. unfold login. emits_tac. Qed.

Lemma emits_backup_workflow : emits (within m_backup_workflow) (backup_workflow env self).
Proof. unfold backup_workflow, wait_for_download, poll, archive. emits_tac. Qed.

Lemma emits_encryption_keystore_backup :
  emits (within m_encryption_keystore_backup) (encryption_keystore_backup env self).
Proof.
  unfold encryption_keystore_backup, click_named, wait_for_download, poll, archive.
  emits_tac.
Qed.

Lemma emits_start_driver : emits (within m_start_driver) (start_driver env self).
Proof. unfold start_driver. emits_tac. Qed.

Lemma emits_close : emits (within m_close) (close env).
Proof.
  unfold close. apply emits_bind; [|intros _; apply emits_ret].
  apply emits_call; [reflexivity|]. apply emits_by_driver; emits_tac.
Qed.

End MethodCalls.





Lemma download_dir_not_target env :
  config_target_dir <> download_dir env /\ keystore_target_dir <> download_dir env.
Proof.
  split; intros H;
    pose proof (endswith_app (home env) "/Downloads") as E;
    unfold download_dir in H; rewrite <- H in E; discriminate.
Qed.

Lemma first_line_split s : s = first_line s +:+ after_first_line s.
Proof.
  induction s as [|c s IH]; [reflexivity|].
  cbn [first_line after_first_line].
  destruct (Ascii.eqb c "010"); [reflexivity|].
  change (String c s = String c (first_line s +:+ after_first_line s)).
  now rewrite <- IH.
Qed.

Lemma rstrip_blank s : blank s = true -> Py.rstrip s = "".
Proof.
  induction s as [|c s IH]; simpl; [reflexivity|].
  intros [Hc Hs]%andb_true_iff. now rewrite IH, Hc.
Qed.

Lemma rstrip_app_blank a b : blank b = true -> Py.rstrip (a +:+ b) = Py.rstrip a.
Proof.
  intros Hb. induction a as [|c a IH]; simpl; [now apply rstrip_blank | now rewrite IH].
Qed.

Lemma strip_first_line s :
  blank (after_first_line s) = true -> Py.strip s = Py.strip (first_line s).
Proof.
  intros H. unfold Py.strip. rewrite (first_line_split s) at 1.
  now rewrite rstrip_app_blank.
Qed.

Lemma emits_weaken {A} (P Q : op -> bool) (s : Stmt A) :
  (forall o, P o = true -> Q o = true) -> emits P s -> emits Q s.
Proof.
  intros H Hs w. destruct (Hs w) as (t & Ht & HP & Hd). exists t.
  repeat split; auto. rewrite forallb_forall in *. auto.
Qed.

Section Run.

Variable env : Env.

Lemma close_spec w :
  exists w', close env w = (Normal tt, w')
    /\ hist w' = hist w ++ Enter m_close :: (if driver w then [Quit] else [])
    /\ driver w' = driver w /\ fs w' = if driver w then evolve env (hist w ++ [Enter m_close]) (fs w) else fs w.
Proof.
  unfold close, bind, call, try_except, perform, ret, before. simpl.
  destruct (driver w) eqn:Hd; simpl.
  - destruct (fails env _ Quit); simpl; eexists; (split; [reflexivity|]); simpl;
      rewrite <- app_assoc; auto.
  - eexists; split; [reflexivity|]. simpl. auto.
Qed.

Lemma start_driver_spec self w :
  let r := start_driver env self w in
  exists t,
    hist r.2 = hist w ++ Enter m_start_driver :: t
    /\ forallb (within m_start_driver) t = true
    /\ ((r.1 = Normal tt /\ driver r.2 = true)
        \/ (r.1 = Raise (SystemExit 1) /\ driver r.2 = driver w)).
Proof.
  unfold start_driver, bind, call, try_except, start_browser, perform, path_exists,
    raise, ret, before. simpl.
  repeat match goal with
         | |- context [if ?b then _ else _] => destruct b; simpl
         | |- context [match fails env ?h ?o with _ => _ end] =>
             destruct (fails env h o); simpl
         end;
    eexists; (split; [rewrite <- ?app_assoc; simpl; reflexivity|]);
    (split; [reflexivity|]); auto.
Qed.

Lemma emits_backup_steps self : emits step_op (backup_steps env self).
Proof.
  unfold backup_steps.
  apply emits_bind.
  { eapply emits_weaken; [|apply emits_login]. now intros [[]| | | | | | | | | | | | | | | | | | | | | | | | | | | |]. }
  intros [|]; [|apply emits_ret].
  apply emits_bind.
  { eapply emits_weaken; [|apply emits_backup_workflow]. now intros [[]| | | | | | | | | | | | | | | | | | | | | | | | | | | |]. }
  intros [|]; [|now apply emits_print].
  apply emits_bind; [now apply emits_print | intros _].
  apply emits_bind; [emits_tac | intros _].
  apply emits_bind; [|intros [|]; now apply emits_print].
  eapply emits_weaken; [|apply emits_encryption_keystore_backup]. now intros [[]| | | | | | | | | | | | | | | | | | | | | | | | | | | |].
Qed.

Lemma forallb_not_existsb (P Q : op -> bool) (t : list op) :
  (forall o, P o = true -> Q o = false) -> forallb P t = true -> existsb Q t = false.
Proof.
  intros H. induction t as [|o t IH]; simpl; [auto|].
  intros [Ho Ht]%andb_true_iff. now rewrite (H o Ho), IH.
Qed.

Lemma run_spec args pw w :
  let s := start_driver env (creator args pw) (fresh w) in
  exists t w',
    hist w' = hist w ++ t ++ Enter m_close :: (if driver w' then [Quit] else [])
    /\ existsb (is_enter m_close) t = false
    /\ ((s.1 = Normal tt /\ run env args pw w = (Normal tt, w') /\ driver w' = true)
        \/ (s.1 = Raise (SystemExit 1) /\ run env args pw w = (Raise (SystemExit 1), w')
            /\ driver w' = false)).
Proof.
  intros s. subst s.
  change (run env args pw w) with
    (try_finally
       (try_except (start_driver env (creator args pw);; backup_steps env (creator args pw))
          is_Exception (ret tt))
       (close env) (fresh w)).
  unfold try_finally, try_except, bind.
  destruct (start_driver_spec (creator args pw) (fresh w)) as (t1 & H1 & HP1 & Hs).
  destruct (start_driver env (creator args pw) (fresh w)) as [r1 w1]. simpl in *.
  assert (existsb (is_enter m_close) t1 = false) as Hc1.
  { eapply forallb_not_existsb; [|exact HP1]. now intros [[]| | | | | | | | | | | | | | | | | | | | | | | | | | | |]. }
  destruct Hs as [[-> Hd] | [-> Hd]].
  - destruct (emits_backup_steps (creator args pw) w1) as (t2 & H2 & HP2 & Hd2).
    pose proof (ends_backup_steps env (creator args pw) w1) as He.
    destruct (backup_steps env (creator args pw) w1) as [r2 w2]. simpl in *.
    assert (existsb (is_enter m_close) t2 = false) as Hc2.
    { eapply forallb_not_existsb; [|exact HP2].
      intros o [_ Ho]%andb_true_iff. now apply negb_true_iff. }
    destruct (close_spec w2) as (w' & Hcl & Hh & Hdr & _).
    exists (Enter m_start_driver :: t1 ++ t2), w'.
    rewrite Hh, H2, H1, Hdr, (Hd2 Hd). simpl. rewrite existsb_app, Hc1, Hc2.
    split; [now rewrite <- !app_assoc|]. split; [reflexivity|]. left.
    split; [reflexivity|]. split; [|reflexivity].
    destruct r2 as [[]|b|[e|n]|]; simpl in *; try easy; unfold ret; now rewrite Hcl.
  - destruct (close_spec w1) as (w' & Hcl & Hh & Hdr & _).
    exists (Enter m_start_driver :: t1), w'.
    rewrite Hh, H1, Hdr, Hd. simpl. rewrite Hc1.
    split; [now rewrite <- !app_assoc|]. split; [reflexivity|]. right.
    split; [reflexivity|]. now rewrite Hcl.
Qed.

End Run.

(** Claim C5.  Whatever the environment does, lines 794-821 of [main]
    end (no loop runs out of fuel), either normally or with the
    [sys.exit(1)] of [start_driver], and the last thing they do is to
    enter [close], which calls [driver.quit()] exactly when a driver was
    started; [close] is entered nowhere before. *)
Theorem teardown_on_every_path (env : Env) (args : Namespace) (pw : option string) (w : World) :
  exists r w' t,
    run env args pw w = (r, w')
    /\ hist w' = hist w ++ t ++ Enter m_close :: (if driver w' then [Quit] else [])
    /\ existsb (is_enter m_close) t = false
    /\ ((r = Normal tt /\ driver w' = true)
        \/ (r = Raise (SystemExit 1) /\ driver w' = false)).
Proof.
  destruct (run_spec env args pw w) as (t & w' & Hh & Hc & [(_ & Hr & Hd) | (_ & Hr & Hd)]).
  - exists (Normal tt), w', t. repeat split; auto.
  - exists (Raise (SystemExit 1)), w', t. repeat split; auto.
Qed.

Lemma read_password_outcome env args w :
  (exists pw, (read_password env args w).1 = Normal pw)
  \/ (read_password env args w).1 = Raise (SystemExit 1).
Proof.
  unfold read_password, try_except, bind, ask, print, raise, ret.
  destruct (ns_password_file args) as [file|]; [|eauto].
  destruct (truthy file); [|eauto].
  destruct (fails env (hist w) (ReadFile file)); simpl; eauto.
Qed.

(** Claim C6.  The exit status of [main] is 2 when argparse rejects the
    command line, 1 when the password file cannot be read or
    [start_driver] exits, and 0 in every other run, whatever [login],
    [backup_workflow] and [encryption_keystore_backup] do. *)
Theorem exit_status_of_main (env : Env) (cmdline : option Namespace) (w : World) :
  exit_status (main env cmdline w).1 =
    match cmdline with
    | None => Some 2
    | Some args =>
        match read_password env args w with
        | (Normal pw, w1) =>
            match (start_driver env (creator args pw) (fresh w1)).1 with
            | Normal _ => Some 0
            | _ => Some 1
            end
        | _ => Some 1
        end
    end.
Proof.
  destruct cmdline as [args|]; [|reflexivity].
  unfold main, parse_arguments. unfold bind at 1. unfold ret at 1. unfold bind at 1.
  destruct (read_password_outcome env args w) as [[pw Hp] | Hp];
    destruct (read_password env args w) as [r w1]; simpl in Hp; subst r; [|reflexivity].
  destruct (run_spec env args pw w1) as (t & w' & _ & _ & [(Hs & Hr & _) | (Hs & Hr & _)]);
    rewrite Hr, Hs; reflexivity.
Qed.

Lemma within_no_print m msg t :
  forallb (within m) t = true -> existsb (is_print msg) t = false.
Proof. apply forallb_not_existsb. now intros []. Qed.

Lemma within_no_other_enter m m' t :
  method_eqb m m' = false ->
  forallb (within m) t = true -> existsb (is_enter m') t = false.
Proof.
  intros Hm. apply forallb_not_existsb. intros [m0| | | | | | | | | | | | | | | | | | | | | | | | | | | |]; simpl; auto.
  destruct m0, m, m'; simpl in *; congruence.
Qed.

Section Sibling.

Variable env : Env.
Variable self : UnityBackup.

Lemma archive_outcome prefix target_dir f w :
  (archive env self prefix target_dir f w).1 = Return true
  \/ (archive env self prefix target_dir f w).1 = Return false.
Proof.
  unfold archive, try_except, bind, now, perform, shutil_move, return_, before. simpl.
  destruct (fails env _ (Makedirs _)); simpl; auto.
  destruct (fails env _ (Move _ _)); simpl; auto.
  destruct (_ !! _); simpl; auto.
Qed.

Lemma archive_move_fails prefix target_dir f w e :
  fails env (hist w ++ [Now; Makedirs target_dir])
    (Move (download_dir env, f)
       (target_dir, new_name prefix (unity_url self) (clock env (hist w)) f)) = Some e ->
  (archive env self prefix target_dir f w).1 = Return false.
Proof.
  intros H.
  unfold archive, try_except, bind, now, perform, shutil_move, return_, before. simpl.
  destruct (fails env _ (Makedirs _)); simpl; auto.
  rewrite <- app_assoc. simpl. now rewrite H.
Qed.

Lemma shaped_calm {A} (s : Stmt A) : emits calm s -> shaped s.
Proof.
  intros H w. destruct (H w) as (t & Ht & HP & _). exists t. split; [exact Ht|].
  exists t, []. rewrite app_nil_r. auto.
Qed.

Lemma shaped_bind {A B} (m : Stmt A) (k : A -> Stmt B) :
  emits calm m -> (forall a, shaped (k a)) -> shaped (bind m k).
Proof.
  intros Hm Hk w. unfold bind. destruct (Hm w) as (t & Ht & HP & _).
  destruct (m w) as [[a|b|e|] w1]; simpl in *;
    try (exists t; split; [exact Ht|]; exists t, []; rewrite app_nil_r; now auto).
  destruct (Hk a w1) as (t' & Ht' & t1 & t2 & -> & H1 & H2).
  exists (t ++ t1 ++ t2). rewrite Ht', Ht, <- app_assoc. split; [reflexivity|].
  exists (t ++ t1), t2. rewrite <- app_assoc, forallb_app, HP, H1. auto.
Qed.

Lemma shaped_failed : shaped (print env failed).
Proof.
  intros w. exists [Print failed]. split; [reflexivity|].
  exists [], [Print failed]. auto.
Qed.

Lemma shaped_completed {A} (rest : Stmt A) :
  emits not_failed rest -> shaped (print env completed;; rest).
Proof.
  intros H w. unfold bind, print. simpl.
  destruct (H (before env (Print completed) w)) as (t & Ht & HP & _).
  exists (Print completed :: t). rewrite Ht. simpl. rewrite <- app_assoc.
  split; [reflexivity|]. exists [], (Print completed :: t). simpl. eauto 10.
Qed.

Lemma shaped_backup_steps : shaped (backup_steps env self).
Proof.
  unfold backup_steps.
  apply shaped_bind.
  { eapply emits_weaken; [|apply emits_login]. now intros [[]| | | | | | | | | | | | | | | | | | | | | | | | | | | |]. }
  intros [|]; [|apply shaped_calm, emits_ret].
  apply shaped_bind.
  { eapply emits_weaken; [|apply emits_backup_workflow]. now intros [[]| | | | | | | | | | | | | | | | | | | | | | | | | | | |]. }
  intros [|]; [|apply shaped_failed].
  apply shaped_completed.
  apply emits_bind; [emits_tac | intros _].
  apply emits_bind; [|intros [|]; now apply emits_print].
  eapply emits_weaken; [|apply emits_encryption_keystore_backup]. now intros [].
Qed.

Lemma shape_failed_no_keystore t :
  shape t -> existsb (is_print failed) t = true ->
  existsb (is_enter m_encryption_keystore_backup) t = false.
Proof.
  intros (t1 & t2 & -> & H1 & H2). rewrite !existsb_app.
  assert (existsb (is_enter m_encryption_keystore_backup) t1 = false) as E1.
  { eapply forallb_not_existsb; [|exact H1].
    intros o [Ho _]%andb_true_iff. now apply negb_true_iff. }
  assert (existsb (is_print failed) t1 = false) as E2.
  { eapply forallb_not_existsb; [|exact H1].
    intros o [_ Ho]%andb_true_iff. now apply negb_true_iff. }
  rewrite E1, E2. simpl.
  destruct H2 as [-> | [-> | (t3 & -> & H3)]]; simpl; auto.
  assert (existsb (is_print failed) t3 = false) as E3.
  { eapply forallb_not_existsb; [|exact H3]. intros o Ho. now apply negb_true_iff. }
  now rewrite E3.
Qed.

Lemma shape_keystore_after_completed t :
  shape t -> existsb (is_enter m_encryption_keystore_backup) t = true ->
  exists t1 t2,
    t = t1 ++ Print completed :: t2
    /\ existsb (is_enter m_encryption_keystore_backup) t1 = false.
Proof.
  intros (t1 & t2 & -> & H1 & H2). rewrite !existsb_app.
  assert (existsb (is_enter m_encryption_keystore_backup) t1 = false) as E1.
  { eapply forallb_not_existsb; [|exact H1].
    intros o [Ho _]%andb_true_iff. now apply negb_true_iff. }
  rewrite E1. simpl.
  destruct H2 as [-> | [-> | (t3 & -> & H3)]]; simpl; try discriminate.
  intros _. eauto.
Qed.

End Sibling.

Lemma slept_app h t : slept (h ++ t) = slept h + slept t.
Proof. induction h as [|[] h IH]; simpl; lia. Qed.

Section TimesOut.

Variable env : Env.
Variable self : UnityBackup.
Variable accepts : string -> bool.
Variables prefix target_dir : string.
Variable before_files : gset string.

Hypothesis listable : forall h, fails env h (Listdir (download_dir env)) = None.
Hypothesis nothing_new :
  forall h files f,
    f ∈ dir_names (evolve env h files) (download_dir env) -> accepts f = true ->
    f ∈ dir_names files (download_dir env) \/ f ∈ before_files.
Hypothesis iter_sound : forall X f, In f (set_iter env X) -> f ∈ X.

Lemma settled_before o w : settled env accepts before_files w -> settled env accepts before_files (before env o w).
Proof.
  intros H f Hf Ha. simpl in Hf.
  destruct (nothing_new _ _ _ Hf Ha); auto.
Qed.

Lemma poll_nothing w :
  settled env accepts before_files w ->
  poll env self accepts prefix target_dir before_files w
  = (Normal tt, before env (Listdir (download_dir env)) w).
Proof.
  intros H. unfold poll, bind, listdir. rewrite listable.
  destruct (first_accepted _ _) as [f|] eqn:Hf; [|reflexivity].
  apply find_some in Hf as [Hin Ha].
  apply iter_sound, elem_of_difference in Hin as [Hin Hout].
  destruct Hout. eapply settled_before; eauto.
Qed.

Lemma while_elapsed_times_out fuel timeout poll_interval elapsed w :
  0 < poll_interval ->
  timeout - elapsed <= Z.of_nat fuel * poll_interval ->
  settled env accepts before_files w ->
  exists w' k,
    while_elapsed env fuel timeout poll_interval
      (poll env self accepts prefix target_dir before_files) elapsed w = (Normal tt, w')
    /\ slept (hist w') = slept (hist w) + k * poll_interval
    /\ 0 <= k
    /\ (elapsed < timeout ->
        timeout <= elapsed + k * poll_interval < timeout + poll_interval)
    /\ (timeout <= elapsed -> k = 0).
Proof.
  intros Hpos. revert elapsed w.
  induction fuel as [|fuel IH]; intros elapsed w Hfuel Hw; simpl;
    destruct (Z.ltb_spec elapsed timeout) as [Hlt|Hge]; try lia.
  - exists w, 0. repeat split; try lia. 
  - unfold bind at 1. rewrite (poll_nothing w Hw).
    unfold bind at 1. unfold sleep at 1.
    set (w1 := before env (Sleep poll_interval) (before env (Listdir (download_dir env)) w)).
    destruct (IH (elapsed + poll_interval) w1) as (w' & k & Hrun & Hs & Hk & Hlt' & Hge').
    { lia. }
    { now do 2 apply settled_before. }
    exists w', (k + 1). split; [exact Hrun|].
    assert (slept (hist w1) = slept (hist w) + poll_interval) as Hs1.
    { unfold w1. simpl. rewrite !slept_app. simpl. lia. }
    rewrite Hs, Hs1.
    destruct (Z.lt_ge_cases (elapsed + poll_interval) timeout) as [H|H].
    + specialize (Hlt' H). repeat split; lia.
    + rewrite (Hge' H). repeat split; lia.
  - exists w, 0. repeat split; try lia.
Qed.

End TimesOut.

(** The wait that finds nothing.  When the download directory can be
    listed, no accepted name that is not in the baseline listing ever
    appears in it, and iterating a set yields only its members, the
    wait for a download (lines 393-437 and 709-755) ends with
    [return False], and the time slept in its loop is 120 seconds,
    which is at most timeout + poll_interval = 122. *)
Theorem wait_for_download_times_out
    (env : Env) (self : UnityBackup) (accepts : string -> bool)
    (prefix target_dir : string) (w : World) :
  (forall h, fails env h (Listdir (download_dir env)) = None) ->
  (forall h files f,
      f ∈ dir_names (evolve env h files) (download_dir env) -> accepts f = true ->
      f ∈ dir_names files (download_dir env)
      \/ f ∈ dir_names (evolve env (hist w) (fs w)) (download_dir env)) ->
  (forall X f, In f (set_iter env X) -> f ∈ X) ->
  exists w',
    wait_for_download env self accepts prefix target_dir w = (Return false, w')
    /\ slept (hist w') - slept (hist w) = 120
    /\ slept (hist w') - slept (hist w) <= 120 + 2.
Proof.
  intros Hl Hn Hi. unfold wait_for_download, bind at 1, listdir. rewrite Hl.
  set (w0 := before env (Listdir (download_dir env)) w).
  destruct (while_elapsed_times_out env self accepts prefix target_dir
              (dir_names (fs w0) (download_dir env)) Hl Hn Hi
              (Z.to_nat 120) 120 2 0 w0) as (w' & k & Hrun & Hs & Hk & Hlt & _).
  { lia. } { simpl. lia. } { now intros f Hf _. }
  exists w'. unfold bind. rewrite Hrun. split; [reflexivity|].
  assert (slept (hist w0) = slept (hist w)) as Hs0.
  { unfold w0. simpl. rewrite slept_app. simpl. lia. }
  rewrite Hs, Hs0. lia.
Qed.

Section Picks.

Variable env : Env.
Variable self : UnityBackup.
Variable accepts : string -> bool.
Variables prefix target_dir : string.

Lemma poll_cases before_files w r w' :
  poll env self accepts prefix target_dir before_files w = (r, w') ->
  (exists f, picked env self accepts prefix target_dir before_files w f r w')
  \/ (w' = before env (Listdir (download_dir env)) w /\ forall b, r <> Return b).
Proof.
  unfold poll, picked, listing, bind, listdir.
  destruct (fails env (hist w) _); simpl.
  { intros [= <- <-]. right. split; [reflexivity | discriminate]. }
  destruct (first_accepted _ _) as [f|] eqn:Hf.
  - destruct (truthy f) eqn:Ht.
    + intros Ha. left. exists f. now split.
    + intros [= <- <-]. right. split; [reflexivity | discriminate].
  - intros [= <- <-]. right. split; [reflexivity | discriminate].
Qed.

Lemma while_elapsed_cases before_files fuel timeout poll_interval elapsed w r w' :
  while_elapsed env fuel timeout poll_interval
    (poll env self accepts prefix target_dir before_files) elapsed w = (r, w') ->
  (exists w1 f, picked env self accepts prefix target_dir before_files w1 f r w')
  \/ ((exists t, hist w' = hist w ++ t /\ forallb idle t = true)
      /\ forall b, r <> Return b).
Proof.
  revert elapsed w. induction fuel as [|fuel IH]; intros elapsed w; simpl;
    destruct (elapsed <? timeout);
    try (intros [= <- <-]; right; split; [exists []; now rewrite app_nil_r | discriminate]).
  unfold bind at 1.
  destruct (poll _ _ _ _ _ _ w) as [r1 w1] eqn:Hp.
  destruct (poll_cases _ _ _ _ Hp) as [(f & Hf & Ha) | [-> Hr]].
  - destruct (archive_outcome env self prefix target_dir f
                (before env (Listdir (download_dir env)) w)) as [H|H];
      rewrite Ha in H; simpl in H; subst r1; intros [= <- <-]; left; exists w, f; now split.
  - destruct r1 as [[]|b|e|];
      try (intros [= <- <-]; right;
           split; [exists [Listdir (download_dir env)]; now split | discriminate]).
    + unfold bind at 1, sleep at 1. intros Hrun.
      destruct (IH _ _ Hrun) as [H | [(t & Ht & Hi) Hr']]; [now left|].
      right. split; [|exact Hr'].
      exists (Listdir (download_dir env) :: Sleep poll_interval :: t).
      rewrite Ht. simpl. rewrite <- !app_assoc. now split.
    + now destruct (Hr b).
Qed.

Lemma wait_for_download_cases w r w' :
  wait_for_download env self accepts prefix target_dir w = (r, w') ->
  (exists w1 f, picked env self accepts prefix target_dir (listing env w) w1 f r w')
  \/ ((exists t, hist w' = hist w ++ t /\ forallb idle t = true)
      /\ r <> Return true).
Proof.
  unfold wait_for_download. cbv zeta. generalize (Z.to_nat 120). intros fuel.
  unfold bind at 1, listdir.
  destruct (fails env (hist w) _).
  { intros [= <- <-]. right.
    split; [exists [Listdir (download_dir env)]; now split | discriminate]. }
  fold (listing env w). unfold bind.
  destruct (while_elapsed env fuel 120 2 _ 0 _) as [r1 w1] eqn:Hrun.
  destruct (while_elapsed_cases _ _ _ _ _ _ _ _ Hrun) as [H | [(t & Ht & Hi) Hr]].
  - destruct H as (w2 & f & Hf & Ha).
    destruct (archive_outcome env self prefix target_dir f
                (before env (Listdir (download_dir env)) w2)) as [H|H];
      rewrite Ha in H; simpl in H; subst r1; intros [= <- <-]; left; exists w2, f; now split.
  - simpl in Ht. rewrite <- app_assoc in Ht.
    destruct r1 as [[]|b|e|]; intros [= <- <-]; try (now destruct (Hr b));
      right; (split; [exists (Listdir (download_dir env) :: t); now split | discriminate]).
Qed.



End Picks.

Lemma find_first {A} (p : A -> bool) (l : list A) (x : A) :
  List.find p l = Some x ->
  exists pre post, l = pre ++ x :: post /\ forallb (fun y => negb (p y)) pre = true.
Proof.
  induction l as [|a l IH]; simpl; [discriminate|].
  destruct (p a) eqn:Ha.
  - intros [= ->]. now exists [], l.
  - intros H. destruct (IH H) as (pre & post & -> & Hp).
    exists (a :: pre), post. simpl. now rewrite Ha, Hp.
Qed.

Lemma phased_last {A} (s : Stmt A) : emits no_click s -> phased s.
Proof.
  intros H w. destruct (H w) as (t & Ht & HP & _). now exists [], t.
Qed.

Lemma phased_first {A B} (m : Stmt A) (k : A -> Stmt B) :
  emits no_listdir m -> (forall a, phased (k a)) -> phased (bind m k).
Proof.
  intros Hm Hk w. unfold bind. destruct (Hm w) as (t & Ht & HP & _).
  destruct (m w) as [[a|b|e|] w1]; simpl in *;
    try (exists t, []; rewrite app_nil_r; now auto).
  destruct (Hk a w1) as (t1 & t2 & Ht' & H1 & H2).
  exists (t ++ t1), t2. rewrite Ht', Ht, <- !app_assoc, forallb_app, HP, H1. auto.
Qed.

Lemma phased_try_except {A} (body handler : Stmt A) (catches : exn -> bool) :
  phased body -> emits no_click handler -> phased (try_except body catches handler).
Proof.
  intros Hb Hh w. unfold try_except. destruct (Hb w) as (t1 & t2 & Ht & H1 & H2).
  destruct (body w) as [[a|b|e|] w1]; simpl in *; eauto.
  destruct (catches e); simpl; eauto.
  destruct (Hh w1) as (t & Ht' & HP & _).
  exists t1, (t2 ++ t). rewrite Ht', Ht, <- !app_assoc, forallb_app, H2, HP. auto.
Qed.

Lemma phased_call (m : method) (body : Stmt unit) : phased body -> phased (call m body).
Proof.
  intros Hb w. unfold call.
  destruct (Hb (mkWorld (hist w ++ [Enter m]) (fs w) (driver w))) as (t1 & t2 & Ht & H1 & H2).
  simpl in Ht. exists (Enter m :: t1), t2. simpl. rewrite H1, H2.
  destruct (body _) as [[a|b|e|] w1]; simpl in *; rewrite Ht, <- !app_assoc; auto.
Qed.

Lemma emits_wait_for_download_no_click env self accepts prefix target_dir :
  emits no_click (wait_for_download env self accepts prefix target_dir).
Proof. unfold wait_for_download, poll, archive. emits_tac. Qed.

Lemma phased_backup_workflow env self : phased (backup_workflow env self).
Proof.
  unfold backup_workflow. apply phased_call.
  apply phased_try_except; [|apply emits_return]. cbv zeta.
  repeat (apply phased_first; [solve [emits_tac] | intros ?]).
  apply phased_last, emits_wait_for_download_no_click.
Qed.

Lemma phased_encryption_keystore_backup env self :
  phased (encryption_keystore_backup env self).
Proof.
  unfold encryption_keystore_backup. apply phased_call.
  repeat (apply phased_first; [solve [unfold click_named; emits_tac] | intros ?]).
  apply phased_last, emits_wait_for_download_no_click.
Qed.

(** What a wait for a download picks.  When iterating a set yields
    only its members, the wait either ends with the archiving of a file
    [f] picked in some round, and then [f] is in the listing of that
    round, not in the listing made when the wait began, accepted by the
    predicate, and the first accepted name in the iteration order of
    the difference; or no file was picked and the wait only listed and
    slept.  The listing the difference is taken against is made after
    the click that triggers the download: in [backup_workflow] and in
    [encryption_keystore_backup] every listing comes after every click
    ([phased]). *)
Theorem new_files_only
    (env : Env) (self : UnityBackup) (accepts : string -> bool)
    (prefix target_dir : string) (w : World) (r : outcome unit) (w' : World) :
  (forall X f, In f (set_iter env X) -> f ∈ X) ->
  wait_for_download env self accepts prefix target_dir w = (r, w') ->
  ((exists w1 f pre post,
      set_iter env (listing env w1 ∖ listing env w) = pre ++ (f :: post)
      /\ forallb (fun y => negb (accepts y)) pre = true
      /\ accepts f = true
      /\ (f ∈ listing env w1) /\ (f ∉ listing env w)
      /\ archive env self prefix target_dir f
           (before env (Listdir (download_dir env)) w1) = (r, w'))
   \/ ((exists t, hist w' = hist w ++ t /\ forallb idle t = true)
       /\ r <> Return true))
  /\ phased (backup_workflow env self)
  /\ phased (encryption_keystore_backup env self).
Proof.
  intros Hiter Hrun.
  split; [|split; [apply phased_backup_workflow | apply phased_encryption_keystore_backup]].
  destruct (wait_for_download_cases _ _ _ _ _ _ _ _ Hrun) as [(w1 & f & Hf & Ha) | H];
    [left | now right].
  destruct (find_first _ _ _ Hf) as (pre & post & Hl & Hpre).
  apply find_some in Hf as [Hin Hacc].
  apply Hiter, elem_of_difference in Hin as [Hin Hout].
  exists w1, f, pre, post. repeat split; assumption.
Qed.

Lemma waited_app h t : waited (h ++ t) = waited h ++ waited t.
Proof. induction h as [|[] h IH]; simpl; congruence. Qed.

Lemma waited_no_wait t : forallb no_wait t = true -> waited t = [].
Proof. induction t as [|[] t IH]; simpl; auto; discriminate. Qed.

Section Chain.

Variable env : Env.
Variable catches : exn -> bool.
Variable timeout : Z.
Variable c : cond.
Variable act : elem -> Stmt unit.
Hypothesis act_no_wait : forall e, emits no_wait (act e).

Lemma try_locator_waits var l w :
  waited (hist (try_locator env catches timeout c act var l w).2) = waited (hist w) ++ [l].
Proof.
  unfold try_locator, try_except, bind, wait_until, ask, ret.
  destruct (fails env (hist w) _) as [e|]; cbn [fst snd].
  - destruct (catches (Err e)); cbn [snd hist before]; now rewrite waited_app.
  - destruct (act_no_wait (Elem l 0) (before env (WaitUntil timeout c l) w))
      as (t & Ht & HP & _).
    destruct (act (Elem l 0) _) as [[[]|b|x|] w1]; cbn [fst snd] in *;
      repeat match goal with
             | |- context [catches ?y] => destruct (catches y); cbn [fst snd]
             end;
      rewrite Ht; cbn [hist before]; rewrite !waited_app, (waited_no_wait _ HP);
      cbn; now rewrite app_nil_r.
Qed.

Lemma try_locator_break var l w e w' :
  try_locator env catches timeout c act var l w = (Normal (Break e), w') -> e = Elem l 0.
Proof.
  unfold try_locator, try_except, bind, wait_until, ask, ret.
  destruct (fails env (hist w) _) as [x|]; cbn [fst snd].
  - destruct (catches (Err x)); discriminate.
  - destruct (act (Elem l 0) _) as [[[]|b|x|] w1];
      repeat match goal with
             | |- context [catches ?y] => destruct (catches y)
             end; cbn; congruence.
Qed.

Lemma chain_stops pre l post var w var1 w1 e w2 :
  continues env catches timeout c act pre var w = Some (var1, w1) ->
  try_locator env catches timeout c act var1 l w1 = (Normal (Break e), w2) ->
  for_locators env catches timeout c act (pre ++ l :: post) var w = (Normal (Some e), w2)
  /\ e = Elem l 0
  /\ waited (hist w2) = waited (hist w) ++ pre ++ [l].
Proof.
  revert var w. induction pre as [|p pre IH]; intros var w; cbn [continues app for_locators].
  - intros [= -> ->] Hb. unfold bind. rewrite Hb. split; [reflexivity|].
    split; [eapply try_locator_break; eauto|].
    pose proof (try_locator_waits var1 l w1) as H. now rewrite Hb in H.
  - unfold bind.
    pose proof (try_locator_waits var p w) as Hw.
    destruct (try_locator env catches timeout c act var p w) as [[[x|var']|b|x|] w'];
      try discriminate.
    intros Hc Hb. destruct (IH _ _ Hc Hb) as (H1 & H2 & H3).
    split; [exact H1|]. split; [exact H2|].
    cbn [snd] in Hw. rewrite H3, Hw, <- app_assoc. reflexivity.
Qed.

End Chain.

(** Claim C7, as amended.  For a readable password file the password is
    the whole content of the file with leading and trailing whitespace
    removed (line 789); that is the first line trimmed whenever the text
    from the first line feed on is whitespace only. *)
Theorem password_is_file_stripped
    (env : Env) (args : Namespace) (file : string) (w : World) :
  ns_password_file args = Some file ->
  truthy file = true ->
  fails env (hist w) (ReadFile file) = None ->
  (read_password env args w).1 = Normal (Some (Py.strip (file_text env (hist w) file)))
  /\ (blank (after_first_line (file_text env (hist w) file)) = true ->
      Py.strip (file_text env (hist w) file)
      = Py.strip (first_line (file_text env (hist w) file))).
Proof.
  intros Hf Ht Hr. split; [|apply strip_first_line].
  unfold read_password, try_except, bind, ask, ret. now rewrite Hf, Ht, Hr.
Qed.

Lemma find_some_accepted {A} (p : A -> bool) (l : list A) (x : A) :
  In x l -> p x = true -> exists y, List.find p l = Some y.
Proof.
  induction l as [|a l IH]; simpl; [easy|].
  intros [-> | Hin] Hp; [rewrite Hp; eauto|].
  destruct (p a); eauto.
Qed.

(** Claim C10.  The configuration watch accepts exactly the names whose
    lower-case form ends in [.cfg], contains [backup] or ends in
    [.html]; the keystore watch accepts exactly those ending in [.lbb];
    so any name ending in [.html] is accepted by the configuration
    watch, and a round of that watch that lists such a new file goes on
    to archive an accepted file. *)
Theorem download_predicates (f : string) :
  (is_config_backup f = true <->
     (exists p, Py.lower f = p +:+ ".cfg")
     \/ (exists p q, Py.lower f = p +:+ "backup" +:+ q)
     \/ (exists p, Py.lower f = p +:+ ".html"))
  /\ (is_keystore_backup f = true <-> exists p, Py.lower f = p +:+ ".lbb")
  /\ is_config_backup (f +:+ ".html") = true
  /\ (forall env self prefix target_dir before_files w,
        (forall X x, x ∈ X -> In x (set_iter env X)) ->
        fails env (hist w) (Listdir (download_dir env)) = None ->
        f ∈ listing env w -> f ∉ before_files -> is_config_backup f = true ->
        exists f',
          is_config_backup f' = true
          /\ poll env self is_config_backup prefix target_dir before_files w
             = archive env self prefix target_dir f'
                 (before env (Listdir (download_dir env)) w)).
Proof.
  split; [|split; [|split]].
  - unfold is_config_backup. rewrite !orb_true_iff, !endswith_spec, contains_spec. tauto.
  - unfold is_keystore_backup. apply endswith_spec.
  - unfold is_config_backup. rewrite lower_app.
    change (Py.lower ".html") with ".html". rewrite (endswith_app _ ".html").
    apply orb_true_r.
  - intros env self prefix target_dir before_files w Hiter Hl Hin Hout Ha.
    destruct (find_some_accepted is_config_backup
                (set_iter env (listing env w ∖ before_files)) f) as [f' Hf'];
      [apply Hiter, elem_of_difference; now split | exact Ha |].
    exists f'. pose proof (find_some _ _ Hf') as [_ Ha'].
    split; [exact Ha'|].
    unfold poll, bind, listdir. rewrite Hl. fold (listing env w).
    unfold first_accepted. rewrite Hf'. now rewrite accepted_is_truthy_config.
Qed.

(** Claim C1 fails on the Execute chain of [backup_workflow] (lines
    309-323): the first locator resolves to a clickable element, its
    click raises, and the loop goes on to wait for the second locator
    and ends with it. *)
Lemma execute_chain_goes_on_after_failed_click :
  let env := ex_env (click_fails execute_first) nothing_arrives EmptyString in
  let run := for_locators env is_Exception 30 Clickable (scroll_and_click env [2])
               execute_xpaths None ex_world in
  (wait_until env 30 Clickable execute_first ex_world).1 = Normal (Elem execute_first 0)
  /\ run.1 = Normal (Some (Elem execute_second 0))
  /\ waited (hist run.2) = [execute_first; execute_second].
Proof. vm_compute. repeat split. Qed.

Lemma elements_sound (X : gset string) (f : string) : In f (elements X) -> f ∈ X.
Proof. intros H. now apply elem_of_elements, list_elem_of_In. Qed.

Lemma elements_complete (X : gset string) (f : string) : f ∈ X -> In f (elements X).
Proof. intros H. now apply list_elem_of_In, elem_of_elements. Qed.

(** Claim C2 at its failing input.  The download lands between the
    click and the snapshot (lines 364 and 395): the directory holds
    [a.txt] before the click on Create New, [b.cfg] is there from that
    click on and matches the predicate, yet [backup_workflow] takes its
    baseline after the click, never sees a new file, moves nothing and
    returns False. *)
Theorem download_before_the_snapshot_is_missed :
  let env := ex_env nothing_fails (arrives_on_click create_new_first "b.cfg") EmptyString in
  let run := backup_workflow env ex_self ex_world in
  elements (dir_names (fs ex_world) ex_downloads) = ["a.txt"]
  /\ (forall h files, clicked create_new_first h = false -> evolve env h files = files)
  /\ clicked create_new_first (hist run.2) = true
  /\ fs run.2 !! (ex_downloads, "b.cfg") = Some "data"
  /\ is_config_backup "b.cfg" = true
  /\ run.1 = Normal false
  /\ existsb is_move (hist run.2) = false.
Proof.
  cbv zeta. split; [vm_compute; reflexivity|]. split.
  - intros h files H. cbn. unfold arrives_on_click. now rewrite H.
  - vm_compute. repeat split.
Qed.

(** The example of the specification: the baseline listing is
    [a.txt], [b.cfg] arrives afterwards, and the wait moves [b.cfg]. *)
Lemma new_files_only_witness :
  let env := ex_env nothing_fails (arrives_after_listing "b.cfg") EmptyString in
  let run := wait_for_download env ex_self is_config_backup config_prefix
               config_target_dir ex_world in
  elements (listing env ex_world) = ["a.txt"]
  /\ last (hist run.2)
     = Some (Move (ex_downloads, "b.cfg")
               (config_target_dir, "unity_backup_2024-03-07_090500-IP-10_0_0_5.cfg"))
  /\ (((exists w1 f pre post,
          set_iter env (listing env w1 ∖ listing env ex_world) = pre ++ (f :: post)
          /\ forallb (fun y => negb (is_config_backup y)) pre = true
          /\ is_config_backup f = true
          /\ (f ∈ listing env w1) /\ (f ∉ listing env ex_world)
          /\ archive env ex_self config_prefix config_target_dir f
               (before env (Listdir (download_dir env)) w1) = (run.1, run.2))
       \/ ((exists t, hist run.2 = hist ex_world ++ t /\ forallb idle t = true)
           /\ run.1 <> Return true))
      /\ phased (backup_workflow env ex_self)
      /\ phased (encryption_keystore_backup env ex_self)).
Proof.
  cbv zeta. split; [vm_compute; reflexivity|]. split; [vm_compute; reflexivity|].
  apply new_files_only.
  - intros X f. apply elements_sound.
  - now destruct (wait_for_download _ _ _ _ _ _).
Defined.

(** The wait where nothing ever arrives in the download directory. *)
Lemma wait_for_download_times_out_witness :
  let env := ex_env nothing_fails nothing_arrives EmptyString in
  exists w',
    wait_for_download env ex_self is_config_backup config_prefix config_target_dir ex_world
    = (Return false, w')
    /\ slept (hist w') - slept (hist ex_world) = 120
    /\ slept (hist w') - slept (hist ex_world) <= 120 + 2.
Proof.
  cbv zeta. apply wait_for_download_times_out.
  - reflexivity.
  - intros h files f Hf _. now left.
  - intros X f. apply elements_sound.
Defined.

(** Claim C7 fails for a password file of two lines: the password keeps
    the line feed and the second line, while the first line trimmed is
    [secret]. *)
Lemma password_file_with_two_lines :
  let content := "secret" +:+ nl +:+ "second" +:+ nl in
  let env := ex_env nothing_fails nothing_arrives content in
  (read_password env ex_args ex_world).1 = Normal (Some ("secret" +:+ nl +:+ "second"))
  /\ Py.strip (first_line content) = "secret".
Proof. vm_compute. split; reflexivity. Qed.

(** Claim C7, as amended, for a file holding one padded line. *)
Lemma password_is_file_stripped_witness :
  let content := "  secret " +:+ nl in
  let env := ex_env nothing_fails nothing_arrives content in
  (read_password env ex_args ex_world).1
  = Normal (Some (Py.strip (file_text env (hist ex_world) "password.txt")))
  /\ (blank (after_first_line (file_text env (hist ex_world) "password.txt")) = true ->
      Py.strip (file_text env (hist ex_world) "password.txt")
      = Py.strip (first_line (file_text env (hist ex_world) "password.txt"))).
Proof.
  cbv zeta. apply password_is_file_stripped; reflexivity.
Defined.

(** Claim C8 at its failing input.  All fields resolve on the first
    locator, the login button is clicked and the 20 seconds are slept;
    then the creation of the debug directory raises (line 247, inside
    the [try] of line 224) and [login] returns False, against the
    comment of line 262. *)
Theorem login_fails_when_debug_dir_cannot_be_made :
  let env := ex_env mkdir_fails nothing_arrives EmptyString in
  let run := login env ex_self ex_world in
  is_op (Click login_button_first) (hist run.2) = true
  /\ is_op (Sleep 20) (hist run.2) = true
  /\ run.1 = Normal false.
Proof. vm_compute. repeat split. Qed.

(** Claim C9 fails when the move of the configuration backup raises:
    [main] prints the failure and never enters
    [encryption_keystore_backup]. *)
Lemma failed_config_move_skips_keystore_backup :
  let env := ex_env move_fails (arrives_after_listing "b.cfg") EmptyString in
  let r := run env ex_args (Some "secret") ex_world in
  existsb is_move (hist r.2) = true
  /\ existsb (is_print failed) (hist r.2) = true
  /\ existsb (is_enter m_encryption_keystore_backup) (hist r.2) = false
  /\ r.1 = Normal tt.
Proof. vm_compute. repeat split. Qed.

(** Claim C10 for a page saved as [page.html] in the download
    directory. *)
Lemma download_predicates_witness :
  let env := ex_env nothing_fails (arrives_after_listing "page.html") EmptyString in
  exists f',
    is_config_backup f' = true
    /\ poll env ex_self is_config_backup config_prefix config_target_dir
         (listing env ex_world) (before env (Listdir (download_dir env)) ex_world)
       = archive env ex_self config_prefix config_target_dir f'
           (before env (Listdir (download_dir env))
              (before env (Listdir (download_dir env)) ex_world)).
Proof.
  cbv zeta.
  apply (proj2 (proj2 (proj2 (download_predicates "page.html")))).
  - intros X f. apply elements_complete.
  - reflexivity.
  - vm_compute. reflexivity.
  - intros H. vm_compute in H. discriminate.
  - reflexivity.
Defined.

(** ** Further properties of the methods *)

Lemma returns_only_never {A} (P : bool -> bool) (ok : exn -> bool) (s : Stmt A) :
  ends ok false s -> returns_only P s.
Proof. intros H w. specialize (H w). now destruct (s w).1. Qed.

Lemma returns_only_return {A} (P : bool -> bool) (b : bool) :
  P b = true -> returns_only P (@return_ A b).
Proof. now intros H w. Qed.

Lemma returns_only_bind {A B} (P : bool -> bool) (m : Stmt A) (k : A -> Stmt B) :
  returns_only P m -> (forall a, returns_only P (k a)) -> returns_only P (bind m k).
Proof.
  intros Hm Hk w. unfold bind. specialize (Hm w).
  destruct (m w) as [[a|b|e|] w1]; simpl in *; auto. apply Hk.
Qed.

Lemma returns_only_try_except {A} (P : bool -> bool) (body handler : Stmt A) catches :
  returns_only P body -> returns_only P handler ->
  returns_only P (try_except body catches handler).
Proof.
  intros Hb Hh w. unfold try_except. specialize (Hb w).
  destruct (body w) as [[a|b|e|] w1]; simpl in *; auto.
  destruct (catches e); simpl; auto. apply Hh.
Qed.

Section Settles.

Variable env : Env.

Lemma settles_calm {A} (s : Stmt A) :
  emits no_settle s -> returns_only negb s -> settles env s.
Proof.
  intros He Hr w. left. destruct (He w) as (t & Ht & HP & _). exists t.
  split; [exact Ht|]. split; [exact HP|].
  specialize (Hr w). destruct (s w).1; try discriminate. intros [= ->]. discriminate.
Qed.

Lemma settles_bind {A B} (m : Stmt A) (k : A -> Stmt B) :
  emits no_settle m -> returns_only negb m -> (forall a, settles env (k a)) ->
  settles env (bind m k).
Proof.
  intros He Hr Hk w. unfold bind.
  destruct (He w) as (t & Ht & HP & _). specialize (Hr w).
  destruct (m w) as [[a|b|e|] w1]; cbn [fst snd] in *;
    try (left; exists t; split; [exact Ht|]; split; [exact HP|]; try discriminate;
         intros [= ->]; discriminate).
  destruct (Hk a w1) as [(t' & Ht' & HP' & Hn) | (t1 & t2 & Ht' & H1 & H2 & Hm)].
  - left. exists (t ++ t'). rewrite Ht', Ht, <- app_assoc, forallb_app, HP, HP'. auto.
  - right. exists (t ++ t1), t2.
    rewrite Ht', Ht, <- !app_assoc, forallb_app, HP, H1.
    repeat split; auto. rewrite Ht, <- !app_assoc in Hm. exact Hm.
Qed.

Lemma settles_try_except {A} (body : Stmt A) catches :
  settles env body -> settles env (try_except body catches (return_ false)).
Proof.
  intros Hb w. unfold try_except, return_.
  destruct (Hb w) as [(t & Ht & HP & Hn) | (t1 & t2 & Ht & H1 & H2 & Hm)].
  - left. exists t.
    destruct (body w) as [[a|b|e|] w1]; cbn [fst snd] in *;
      try destruct (catches e); cbn [fst snd]; repeat split; auto; discriminate.
  - right. exists t1, t2.
    destruct (fails env _ (Mkdir _)) as [x|].
    + destruct (body w) as [[a|b|e|] w1]; cbn [fst snd] in *;
        try destruct (catches e); cbn [fst snd]; repeat split; auto.
    + destruct (body w) as [[a|b|e|] w1]; cbn [fst snd] in *; try discriminate.
      repeat split; auto.
Qed.

Lemma settles_settle name :
  settles env (sleep env 20;; save_debug env name;; @return_ unit true).
Proof.
  intros w. right. exists [].
  unfold save_debug.
  unfold bind, sleep, perform, now, write_file, try_except, return_, ret.
  cbn [fst snd hist before app].
  destruct (fails env (hist w ++ [Sleep 20]) (Mkdir (debug_dir env))) as [x|] eqn:Hm;
    cbn [fst snd hist before].
  - exists [Mkdir (debug_dir env)]. rewrite <- app_assoc. cbn [app]. eauto 10.
  - repeat match goal with
           | |- context [match fails env ?h ?o with _ => _ end] =>
               destruct (fails env h o); cbn [fst snd hist before is_Exception]
           end;
      rewrite <- !app_assoc; cbn [app];
      eexists; (split; [reflexivity|]); repeat split; reflexivity.
Qed.

End Settles.


Ltac never_returns :=
  eapply (returns_only_never _ any_exn);
  solve [ repeat first [ apply ends_save_debug; ok_err | ends_step ] ].

Ltac returns_tac :=
  repeat first
    [ never_returns
    | apply returns_only_return; reflexivity
    | apply returns_only_try_except
    | apply returns_only_bind; [|intros ?]
    | match goal with
      | |- returns_only _ (match ?x with _ => _ end) => destruct x
      end ].

Lemma unique_settle (t1 t2 t1' t2' : list op) :
  forallb no_settle t1 = true ->
  forallb no_settle t1' = true \/ forallb no_settle t2 = true ->
  t1 ++ Sleep 20 :: t2 = t1' ++ Sleep 20 :: t2' -> t1 = t1'.
Proof.
  revert t1'. induction t1 as [|o t1 IH]; intros [|o' t1']; cbn.
  - reflexivity.
  - intros _ [H|H] [= <- ->]; [discriminate|].
    rewrite forallb_app in H. cbn in H. rewrite andb_false_r in H. discriminate.
  - intros H _ [= -> _]. discriminate.
  - intros [Ho H1]%andb_true_iff H [= -> He]. f_equal. apply IH; auto.
    destruct H as [[_ H]%andb_true_iff | H]; auto.
Qed.

Lemma call_settles env (m : method) (body : Stmt unit) (w : World) :
  settles env body ->
  (call m body w).1 = Normal true <->
  exists t1 t2,
    hist (call m body w).2 = hist w ++ t1 ++ Sleep 20 :: t2
    /\ fails env (hist w ++ t1 ++ [Sleep 20]) (Mkdir (debug_dir env)) = None.
Proof.
  intros Hs. unfold call.
  destruct (Hs (mkWorld (hist w ++ [Enter m]) (fs w) (driver w)))
    as [(t & Ht & HP & Hn) | (t1 & t2 & Ht & H1 & H2 & Hm)];
    destruct (body _) as [r w1]; cbn [fst snd hist] in *.
  - split.
    + destruct r as [[]|[|]|e|]; cbn; try discriminate. now destruct Hn.
    + intros (t1 & t2 & Hh & _). exfalso.
      assert (hist w1 = hist w ++ (t1 ++ Sleep 20 :: t2)) as Hh'
        by (destruct r; exact Hh).
      rewrite Ht, <- app_assoc in Hh'. apply app_inv_head in Hh'.
      assert (forallb no_settle (Enter m :: t) = true) as HP' by exact HP.
      cbn [app] in Hh'. rewrite Hh', forallb_app in HP'. cbn in HP'.
      rewrite andb_false_r in HP'. discriminate.
  - assert (forall t1' t2', hist w1 = hist w ++ t1' ++ Sleep 20 :: t2' ->
                            t1' = Enter m :: t1) as Huniq.
    { intros t1' t2' Hh. rewrite Ht, <- !app_assoc in Hh. apply app_inv_head in Hh.
      symmetry. eapply (unique_settle (Enter m :: t1) t2 t1' t2'); auto. }
    rewrite <- !app_assoc in Hm. cbn [app] in Hm.
    split.
    + intros Hr. exists (Enter m :: t1), t2. split.
      * destruct r; cbn [snd]; rewrite Ht, <- !app_assoc; reflexivity.
      * cbn [app]. destruct (fails env _ (Mkdir _)) as [x|]; [|reflexivity].
        destruct Hm as [-> | [y ->]]; discriminate.
    + intros (t1' & t2' & Hh & Hf).
      assert (hist w1 = hist w ++ t1' ++ Sleep 20 :: t2') as Hh' by (destruct r; exact Hh).
      rewrite (Huniq _ _ Hh') in Hf. cbn [app] in Hf. rewrite Hf in Hm. now subst r.
Qed.

(** Property X1 ([login], lines 127-273).  [login] returns True exactly
    when it reaches the sleep of 20 seconds that follows the click on
    the login button and the [mkdir] of the debug directory that comes
    next does not fail: once the button is clicked, neither the page
    that loads nor the writes of the debug files change the result. *)
Theorem login_true_iff (env : Env) (self : UnityBackup) (w : World) :
  (login env self w).1 = Normal true <->
  exists t1 t2,
    hist (login env self w).2 = hist w ++ t1 ++ Sleep 20 :: t2
    /\ fails env (hist w ++ t1 ++ [Sleep 20]) (Mkdir (debug_dir env)) = None.
Proof.
  unfold login. apply call_settles.
  apply settles_try_except.
  repeat (apply settles_bind; [solve [emits_tac] | solve [returns_tac] | intros ?]).
  match goal with |- settles _ (match ?x with _ => _ end) => destruct x end.
  - repeat (apply settles_bind; [solve [emits_tac] | solve [returns_tac] | intros ?]).
    apply settles_try_except.
    apply settles_bind; [solve [emits_tac] | solve [returns_tac] | intros [b|]].
    + apply settles_bind; [solve [emits_tac] | solve [returns_tac] | intros ?].
      apply settles_settle.
    + apply settles_calm; [emits_tac | returns_tac].
  - apply settles_calm; [emits_tac | returns_tac].
Qed.


(** Property X2 (the locator chains of [login], lines 171-179 and
    233-240).  When the wait of every locator of a chain ends in a
    timeout, the chain tries each locator once, in order, raises
    nothing and leaves its variable at None. *)
Theorem chain_exhausted
    (env : Env) (timeout : Z) (c : cond) (locators : list locator) (w : World) :
  (forall h l, In l locators -> fails env h (WaitUntil timeout c l) = Some TimeoutException) ->
  exists w',
    for_locators env is_TimeoutException timeout c (fun _ => ret tt) locators None w
    = (Normal None, w')
    /\ hist w' = hist w ++ map (WaitUntil timeout c) locators.
Proof.
  revert w. induction locators as [|l rest IH]; intros w H; cbn [for_locators map].
  - exists w. now rewrite app_nil_r.
  - unfold bind at 1, try_locator, try_except, bind, wait_until, ask.
    rewrite (H (hist w) l) by now left. cbn [fst snd is_TimeoutException ret].
    destruct (IH (before env (WaitUntil timeout c l) w)) as (w' & Hrun & Hh).
    { intros h l' Hl. apply H. now right. }
    exists w'. split; [exact Hrun|]. rewrite Hh. cbn [hist before].
    now rewrite <- app_assoc.
Qed.

(** Property X2 for the user name chain, in a world where every wait
    times out. *)
Lemma chain_exhausted_witness :
  let env := ex_env (fun _ o => match o with
                                | WaitUntil _ _ _ => Some TimeoutException
                                | _ => None
                                end) nothing_arrives EmptyString in
  exists w',
    for_locators env is_TimeoutException 10 Presence (fun _ => ret tt)
      username_selectors None ex_world = (Normal None, w')
    /\ hist w' = hist ex_world ++ map (WaitUntil 10 Presence) username_selectors.
Proof. cbv zeta. apply chain_exhausted. reflexivity. Defined.

Lemma for_locators_continue env catches timeout c act l rest var w var' w' :
  try_locator env catches timeout c act var l w = (Normal (Continue var'), w') ->
  for_locators env catches timeout c act (l :: rest) var w
  = for_locators env catches timeout c act rest var' w'.
Proof. intros H. cbn [for_locators]. unfold bind. now rewrite H. Qed.

(** Property X3 (the clicking chains, e.g. lines 308-325).  The
    variable of a clicking chain is assigned before the click, in the
    same [try].  So when every wait finds its element and every click
    raises, the chain tries all its locators and still ends with the
    element of the last one: the test [if not execute_btn] that follows
    does not see that nothing was clicked. *)
Theorem clicking_chain_keeps_last_found
    (env : Env) (timeout : Z) (c : cond) (settle : list Z)
    (locators : list locator) (l : locator) (var : option elem) (w : World) :
  (forall h l', fails env h (WaitUntil timeout c l') = None) ->
  (forall h e, fails env h (Click e) = Some WebDriverException) ->
  (for_locators env is_Exception timeout c (scroll_and_click env settle)
     (locators ++ [l]) var w).1 = Normal (Some (Elem l 0))
  /\ waited (hist (for_locators env is_Exception timeout c (scroll_and_click env settle)
                     (locators ++ [l]) var w).2)
     = waited (hist w) ++ locators ++ [l].
Proof.
  intros Hw Hc.
  assert (forall l' var' w', exists w'',
             try_locator env is_Exception timeout c (scroll_and_click env settle) var' l' w'
             = (Normal (Continue (Some (Elem l' 0))), w'')
             /\ waited (hist w'') = waited (hist w') ++ [l']) as Hstep.
  { intros l' var' w'.
    pose proof (try_locator_waits env is_Exception timeout c (scroll_and_click env settle)
                  (fun e => emits_scroll_and_click env no_wait settle e eq_refl eq_refl eq_refl
                              ltac:(now induction settle)) var' l' w') as Hwt.
    unfold try_locator, try_except, bind, wait_until, ask in *. rewrite Hw in *.
    cbn [fst snd] in *. unfold scroll_and_click, bind, perform, sleep in *.
    destruct (fails env _ (ExecuteScript _)); cbn [fst snd is_Exception ret] in *;
      [eexists; split; [reflexivity | exact Hwt]|].
    cbn [hist before] in *. rewrite Hc in *. cbn [fst snd is_Exception ret] in *.
    eexists; split; [reflexivity | exact Hwt]. }
  revert var w. induction locators as [|p rest IH]; intros var w; cbn [app].
  - destruct (Hstep l var w) as (w'' & Hs & Hh).
    rewrite (for_locators_continue _ _ _ _ _ _ _ _ _ _ _ Hs). cbn. now rewrite Hh.
  - destruct (Hstep p var w) as (w'' & Hs & Hh).
    rewrite (for_locators_continue _ _ _ _ _ _ _ _ _ _ _ Hs).
    destruct (IH (Some (Elem p 0)) w'') as [H1 H2]. split; [exact H1|].
    rewrite H2, Hh, <- app_assoc. reflexivity.
Qed.

(** Property X3 for three locators of the Execute button, in a world
    where every click fails. *)
Lemma clicking_chain_keeps_last_found_witness :
  let env := ex_env (fun _ o => match o with
                                | Click _ => Some WebDriverException
                                | _ => None
                                end) nothing_arrives EmptyString in
  (for_locators env is_Exception 30 Clickable (scroll_and_click env [2])
     ([execute_first; execute_second] ++ [(XPATH, "//span[@id='button-1512-btnWrap']")])
     None ex_world).1
  = Normal (Some (Elem (XPATH, "//span[@id='button-1512-btnWrap']") 0))
  /\ waited (hist (for_locators env is_Exception 30 Clickable (scroll_and_click env [2])
                     ([execute_first; execute_second]
                      ++ [(XPATH, "//span[@id='button-1512-btnWrap']")]) None ex_world).2)
     = waited (hist ex_world) ++ [execute_first; execute_second]
       ++ [(XPATH, "//span[@id='button-1512-btnWrap']")].
Proof. cbv zeta. apply clicking_chain_keeps_last_found; reflexivity. Defined.

(** Property X4 ([login], lines 127-273, and [backup_workflow], lines
    275-440).  Both methods end with a boolean whatever the browser and
    the file system do: their bodies stand under one
    [try ... except Exception] that returns False. *)
Theorem login_and_backup_workflow_never_raise
    (env : Env) (self : UnityBackup) (w : World) :
  (exists b, (login env self w).1 = Normal b)
  /\ (exists b, (backup_workflow env self w).1 = Normal b).
Proof.
  split.
  - pose proof (ends_login env self w) as H.
    destruct (login env self w).1 as [b| | |]; try easy. eauto.
  - pose proof (ends_backup_workflow env self w) as H.
    destruct (backup_workflow env self w).1 as [b| | |]; try easy. eauto.
Qed.



Lemma take_while_dotted_all s : dotted (Py.take_while Py.digit_or_dot s) = true.
Proof.
  induction s as [|c s IH]; cbn; [reflexivity|].
  destruct (Py.digit_or_dot c) eqn:Hc; cbn; [now rewrite Hc|reflexivity].
Qed.

Lemma match_url_here_group s g :
  Py.match_url_here s = Some g -> g <> "" /\ dotted g = true.
Proof.
  unfold Py.match_url_here.
  destruct (Py.strip_prefix "http" s) as [r|]; [|discriminate].
  destruct (Py.strip_prefix "://" _) as [t|]; [|discriminate].
  pose proof (take_while_dotted_all t) as H.
  destruct (Py.take_while Py.digit_or_dot t) as [|a u]; [discriminate|].
  intros [= <-]. split; [discriminate | exact H].
Qed.

Lemma search_url_group s g : Py.search_url s = Some g -> g <> "" /\ dotted g = true.
Proof.
  induction s as [|c s IH]; cbn [Py.search_url].
  - destruct (Py.match_url_here "") eqn:H; [|discriminate].
    intros [= <-]. eapply match_url_here_group; eauto.
  - destruct (Py.match_url_here (String c s)) eqn:H; [|exact IH].
    intros [= <-]. eapply match_url_here_group; eauto.
Qed.

Lemma replace_dotted g :
  dotted g = true ->
  digits_and_underscores (Py.replace_char "." "_" g) = true
  /\ has_char "." (Py.replace_char "." "_" g) = false.
Proof.
  induction g as [|c g IH]; cbn; [auto|].
  intros [Hc Hg]%andb_true_iff. destruct (IH Hg) as [H1 H2]. rewrite H1, H2.
  unfold Py.digit_or_dot in Hc.
  destruct (Ascii.eqb c ".") eqn:Hd; cbn; [auto|].
  rewrite orb_false_r in Hc. rewrite Hc, Hd. auto.
Qed.

(** Property X5 (lines 415-416 and 730-735).  The host part of an
    archive name is never empty and holds no dot: it is [unknown_ip] or
    is made of digits and underscores. *)
Theorem unity_ip_of_is_safe (unity_url : string) :
  unity_ip_of unity_url <> ""
  /\ has_char "." (unity_ip_of unity_url) = false
  /\ (unity_ip_of unity_url = "unknown_ip"
      \/ digits_and_underscores (unity_ip_of unity_url) = true).
Proof.
  unfold unity_ip_of.
  destruct (Py.search_url unity_url) as [g|] eqn:H.
  - destruct (search_url_group _ _ H) as [Hne Hd].
    destruct (replace_dotted g Hd) as [H1 H2].
    split; [now destruct g|]. auto.
  - split; [discriminate|]. split; [reflexivity | now left].
Qed.

Lemma lstrip_no_space s : starts_with_space (Py.lstrip s) = false.
Proof.
  induction s as [|c s IH]; cbn; [reflexivity|].
  destruct (Py.isspace c) eqn:Hc; [exact IH | cbn; exact Hc].
Qed.

Lemma rstrip_no_space s : ends_with_space (Py.rstrip s) = false.
Proof.
  induction s as [|c s IH]; cbn [Py.rstrip]; [reflexivity|].
  destruct (Py.rstrip s) as [|a t] eqn:Hr.
  - destruct (Py.isspace c) eqn:Hc; cbn; [reflexivity | exact Hc].
  - exact IH.
Qed.

Lemma lstrip_keeps_end s : ends_with_space s = false -> ends_with_space (Py.lstrip s) = false.
Proof.
  induction s as [|c s IH]; cbn [Py.lstrip]; [auto|].
  destruct (Py.isspace c) eqn:Hc; [|auto].
  intros H. apply IH. destruct s; [reflexivity | exact H].
Qed.

Lemma lstrip_fixed s : starts_with_space s = false -> Py.lstrip s = s.
Proof. destruct s as [|c s]; cbn; [auto|]. now intros ->. Qed.

Lemma rstrip_fixed s : ends_with_space s = false -> Py.rstrip s = s.
Proof.
  induction s as [|c s IH]; cbn [Py.rstrip ends_with_space]; [auto|].
  destruct s as [|a t].
  - cbn. now intros ->.
  - intros H. rewrite (IH H). reflexivity.
Qed.

(** Property X6 ([main], lines 784-792).  A password read from a file
    neither starts nor ends with whitespace, and stripping it again
    changes nothing. *)
Theorem password_has_no_margin
    (env : Env) (args : Namespace) (file : string) (w : World) (pw : string) :
  ns_password_file args = Some file ->
  truthy file = true ->
  (read_password env args w).1 = Normal (Some pw) ->
  starts_with_space pw = false /\ ends_with_space pw = false /\ Py.strip pw = pw.
Proof.
  intros Hf Ht. unfold read_password, try_except, bind, ask, print, raise, ret.
  rewrite Hf, Ht. destruct (fails env (hist w) _); cbn; [discriminate|].
  intros [= <-].
  assert (starts_with_space (Py.strip (file_text env (hist w) file)) = false) as H1
    by apply lstrip_no_space.
  assert (ends_with_space (Py.strip (file_text env (hist w) file)) = false) as H2
    by apply lstrip_keeps_end, rstrip_no_space.
  split; [exact H1|]. split; [exact H2|].
  unfold Py.strip at 1. rewrite (rstrip_fixed _ H2). now apply lstrip_fixed.
Qed.

(** Property X6 for a file that holds a padded password with a blank
    inside. *)
Lemma password_has_no_margin_witness :
  let env := ex_env nothing_fails nothing_arrives ("  pass word " +:+ nl) in
  starts_with_space "pass word" = false /\ ends_with_space "pass word" = false
  /\ Py.strip "pass word" = "pass word".
Proof.
  cbv zeta.
  apply (password_has_no_margin (ex_env nothing_fails nothing_arrives ("  pass word " +:+ nl))
           ex_args "password.txt" ex_world); reflexivity.
Defined.


Lemma slept_no_sleep t : forallb no_sleep t = true -> slept t = 0.
Proof. induction t as [|[] t IH]; cbn; auto; discriminate. Qed.

Lemma emits_poll_no_sleep env self accepts prefix target_dir before_files :
  emits no_sleep (poll env self accepts prefix target_dir before_files).
Proof. unfold poll, archive. emits_tac. Qed.

Lemma while_elapsed_sleeps env self accepts prefix target_dir before_files
    fuel timeout poll_interval elapsed w r w' :
  0 < poll_interval ->
  elapsed <= timeout ->
  (poll_interval | timeout - elapsed) ->
  while_elapsed env fuel timeout poll_interval
    (poll env self accepts prefix target_dir before_files) elapsed w = (r, w') ->
  0 <= slept (hist w') - slept (hist w) <= timeout - elapsed.
Proof.
  intros Hpos. revert elapsed w.
  induction fuel as [|fuel IH]; intros elapsed w Hle Hdiv; cbn [while_elapsed];
    destruct (Z.ltb_spec elapsed timeout) as [Hlt|Hge];
    try (intros [= <- <-]; lia).
  unfold bind at 1.
  destruct (emits_poll_no_sleep env self accepts prefix target_dir before_files w)
    as (t & Ht & HP & _).
  assert (poll_interval <= timeout - elapsed) as Hroom.
  { destruct Hdiv as [k Hk]. assert (1 <= k) by nia. nia. }
  destruct (poll _ _ _ _ _ _ w) as [[[]|b|e|] w1]; cbn [fst snd] in *;
    try (intros [= <- <-]; rewrite Ht, slept_app, (slept_no_sleep _ HP); lia).
  unfold bind at 1, sleep at 1. intros Hrun.
  assert (poll_interval | timeout - (elapsed + poll_interval)) as Hdiv'.
  { destruct Hdiv as [k Hk]. exists (k - 1). rewrite Z.mul_sub_distr_r. lia. }
  assert (elapsed + poll_interval <= timeout) as Hle' by lia.
  pose proof (IH _ _ Hle' Hdiv' Hrun) as H.
  cbn [hist before] in H.
  rewrite slept_app, Ht, slept_app, (slept_no_sleep _ HP) in H. cbn in H. lia.
Qed.

(** Property X7 (the wait loops, lines 396-437 and 712-755).  The wait
    for a download always ends, and sleeps at most 120 seconds,
    whatever the listings and the move do. *)
Theorem wait_for_download_is_bounded
    (env : Env) (self : UnityBackup) (accepts : string -> bool)
    (prefix target_dir : string) (w : World) :
  (wait_for_download env self accepts prefix target_dir w).1 <> OutOfFuel
  /\ 0 <= slept (hist (wait_for_download env self accepts prefix target_dir w).2)
          - slept (hist w)
  /\ slept (hist (wait_for_download env self accepts prefix target_dir w).2)
     - slept (hist w) <= 120.
Proof.
  assert (forall r w', wait_for_download env self accepts prefix target_dir w = (r, w') ->
                       0 <= slept (hist w') - slept (hist w) <= 120) as H.
  { unfold wait_for_download. cbv zeta. generalize (Z.to_nat 120). intros fuel r w'.
    unfold bind at 1, listdir.
    destruct (fails env (hist w) _).
    { intros [= <- <-]. cbn [hist before]. rewrite slept_app. cbn. lia. }
    unfold bind.
    destruct (while_elapsed env fuel 120 2 _ 0 _) as [r1 w1] eqn:Hrun.
    apply while_elapsed_sleeps in Hrun; [|lia|lia|exists 60; lia].
    cbn [hist before] in Hrun. rewrite slept_app in Hrun. cbn in Hrun.
    destruct r1 as [[]|?|?|]; intros [= <- <-]; lia. }
  split.
  - pose proof (ends_wait_for_download env self any_exn accepts prefix target_dir
                  (fun _ => eq_refl) w) as He.
    now destruct (wait_for_download _ _ _ _ _ _).1.
  - destruct (wait_for_download env self accepts prefix target_dir w) as [r w'] eqn:Hr.
    specialize (H r w' eq_refl). cbn [snd]. lia.
Qed.


(** Property X8 ([start_driver], lines 61-125).  [start_driver] ends in
    one of two ways: it returns with [self.driver] set, its last call
    being the start of the browser, which succeeded; or it ends the
    process with status 1 and leaves [self.driver] as it was. *)
Theorem start_driver_outcome (env : Env) (self : UnityBackup) (w : World) :
  ((start_driver env self w).1 = Normal tt
   /\ driver (start_driver env self w).2 = true
   /\ last (hist (start_driver env self w).2) = Some (StartBrowser (browser self))
   /\ fails env (removelast (hist (start_driver env self w).2))
        (StartBrowser (browser self)) = None)
  \/ ((start_driver env self w).1 = Raise (SystemExit 1)
      /\ driver (start_driver env self w).2 = driver w).
Proof.
  unfold start_driver, bind, call, try_except, start_browser, perform, path_exists,
    raise, ret, before. cbn [hist fs driver].
  destruct (String.eqb_spec (browser self) "chrome") as [->|_];
    [|destruct (String.eqb_spec (browser self) "edge") as [->|_]];
    repeat match goal with
           | |- context [if ?b then _ else _] => destruct b; cbn [fst snd hist fs driver]
           | |- context [match fails env ?h ?o with _ => _ end] =>
               destruct (fails env h o) eqn:?; cbn [fst snd hist fs driver is_Exception]
           end;
    try (right; split; reflexivity);
    left; rewrite ?last_snoc, ?removelast_last; auto.
Qed.

(** Property X9 ([start_driver], lines 119-122).  For a browser other
    than chrome and edge, [start_driver] ends the process with status 1
    without a single call to the outside. *)
Theorem unsupported_browser_exits (env : Env) (self : UnityBackup) (w : World) :
  browser self <> "chrome" -> browser self <> "edge" ->
  start_driver env self w
  = (Raise (SystemExit 1), mkWorld (hist w ++ [Enter m_start_driver]) (fs w) (driver w)).
Proof.
  intros Hc He. unfold start_driver, bind, call, try_except, raise.
  destruct (String.eqb_spec (browser self) "chrome"); [contradiction|].
  destruct (String.eqb_spec (browser self) "edge"); [contradiction|].
  reflexivity.
Qed.

(** Property X9 for firefox. *)
Lemma unsupported_browser_exits_witness :
  start_driver (ex_env nothing_fails nothing_arrives EmptyString)
    (mkUnityBackup "https://10.0.0.5" "admin" None "firefox") ex_world
  = (Raise (SystemExit 1),
     mkWorld (hist ex_world ++ [Enter m_start_driver]) (fs ex_world) (driver ex_world)).
Proof. apply unsupported_browser_exits; discriminate. Defined.

(** Property X10 ([main], lines 794-821).  When [start_driver] ends the
    process, the only thing [main] still does is to enter [close],
    which has no driver to quit; the exit status stays 1. *)
Theorem failed_startup_only_closes
    (env : Env) (args : Namespace) (pw : option string) (w : World) :
  (start_driver env (creator args pw) (fresh w)).1 = Raise (SystemExit 1) ->
  (run env args pw w).1 = Raise (SystemExit 1)
  /\ hist (run env args pw w).2
     = hist (start_driver env (creator args pw) (fresh w)).2 ++ [Enter m_close].
Proof.
  intros Hs.
  change (run env args pw w) with
    (try_finally
       (try_except (start_driver env (creator args pw);; backup_steps env (creator args pw))
          is_Exception (ret tt))
       (close env) (fresh w)).
  unfold try_finally, try_except, bind.
  destruct (start_driver_outcome env (creator args pw) (fresh w))
    as [[Hn _] | [_ Hd]]; [rewrite Hn in Hs; discriminate|].
  destruct (start_driver env (creator args pw) (fresh w)) as [r w1].
  cbn [fst snd] in *. subst r. cbn [is_Exception fresh driver] in *.
  destruct (close_spec env w1) as (w' & Hc & Hh & _). rewrite Hc.
  cbn [fst snd]. rewrite Hh, Hd. auto.
Qed.

(** Property X10 in a world where the driver cannot be installed. *)
Lemma failed_startup_only_closes_witness :
  let env := ex_env (fun _ o => match o with
                                | InstallDriver _ => Some OtherException
                                | _ => None
                                end) nothing_arrives EmptyString in
  (run env ex_args None ex_world).1 = Raise (SystemExit 1)
  /\ hist (run env ex_args None ex_world).2
     = hist (start_driver env (creator ex_args None) (fresh ex_world)).2 ++ [Enter m_close].
Proof. cbv zeta. apply failed_startup_only_closes. reflexivity. Defined.

(** Property X11 ([close], lines 757-767).  [close] never raises: it
    calls [quit] exactly when there is a driver, swallows the error of
    a failed [quit], and does not reset [self.driver]. *)
Theorem close_swallows_errors (env : Env) (w : World) :
  exists w',
    close env w = (Normal tt, w')
    /\ hist w' = hist w ++ Enter m_close :: (if driver w then [Quit] else [])
    /\ driver w' = driver w.
Proof.
  destruct (close_spec env w) as (w' & H1 & H2 & H3 & _). eauto.
Qed.


Lemma option_eqb_refl (a : option string) : option_eqb a a = true.
Proof. destruct a; simpl; auto using String.eqb_refl. Qed.

Ltac side :=
  intros; cbn; rewrite ?String.eqb_refl, ?option_eqb_refl, ?orb_true_r; reflexivity.

Ltac emits_side :=
  repeat first
    [ apply emits_ret | apply emits_return | apply emits_raise
    | apply emits_try_except
    | apply emits_call; [side|]
    | apply emits_save_debug; [side | side | side | side]
    | apply emits_click_by_text; side
    | apply emits_perform; side
    | apply emits_wait_until; side
    | apply emits_ask; side
    | apply emits_sleep; side
    | apply emits_print; side
    | apply emits_now; side
    | apply emits_path_exists; side
    | apply emits_listdir; side
    | apply emits_write_file; side
    | apply emits_shutil_move; side
    | apply emits_start_browser; side
    | apply emits_scroll_and_click; side
    | apply emits_for_locators; [side | intros ?]
    | apply emits_while_elapsed; [side|]
    | apply emits_bind; [|intros ?]
    | match goal with
      | |- emits _ (match ?x with _ => _ end) => destruct x
      end ].

Lemma last_char_app (a b : string) : b <> "" -> last_char (a +:+ b) = last_char b.
Proof.
  intros Hb. induction a as [|c a IH]; [reflexivity|].
  change (last_char (String c (a +:+ b)) = last_char b).
  cbn [last_char]. rewrite IH.
  destruct b as [|d b]; [contradiction|].
  cbn [last_char]. now destruct (last_char b).
Qed.


(** Property X13 (all methods).  The only text [login] types into the
    page is the user name and the password; no other method types any
    text. *)
Theorem only_credentials_are_typed (env : Env) (self : UnityBackup) :
  emits (types_credentials self) (login env self)
  /\ emits types_nothing (start_driver env self)
  /\ emits types_nothing (backup_workflow env self)
  /\ emits types_nothing (encryption_keystore_backup env self)
  /\ emits types_nothing (close env).
Proof.
  repeat split.
  - unfold login. emits_side.
  - unfold start_driver. emits_side.
  - unfold backup_workflow, wait_for_download, poll, archive. emits_side.
  - unfold encryption_keystore_backup, click_named, wait_for_download, poll, archive.
    emits_side.
  - unfold close. apply emits_bind; [|intros _; apply emits_ret].
    apply emits_call; [reflexivity|]. apply emits_by_driver; emits_side.
Qed.


Lemma has_char_app c a b : has_char c (a +:+ b) = has_char c a || has_char c b.
Proof.
  induction a as [|x a IH]; [reflexivity|].
  change (has_char c (String x (a +:+ b)) = has_char c (String x a) || has_char c b).
  cbn [has_char]. now rewrite IH, orb_assoc.
Qed.

Lemma digit_not_dot n : Ascii.eqb (Py.digit n) "." = false.
Proof.
  unfold Py.digit. pose proof (Z.mod_pos_bound n 10 ltac:(lia)) as H.
  assert (n mod 10 = 0 \/ n mod 10 = 1 \/ n mod 10 = 2 \/ n mod 10 = 3 \/ n mod 10 = 4
          \/ n mod 10 = 5 \/ n mod 10 = 6 \/ n mod 10 = 7 \/ n mod 10 = 8 \/ n mod 10 = 9)
    as Hn by lia.
  repeat destruct Hn as [-> | Hn]; try reflexivity. now rewrite Hn.
Qed.

Lemma pad2_no_dot n : has_char "." (Py.pad2 n) = false.
Proof. unfold Py.pad2. cbn [has_char]. now rewrite !digit_not_dot. Qed.

Lemma pad4_no_dot n : has_char "." (Py.pad4 n) = false.
Proof. unfold Py.pad4. cbn [has_char]. now rewrite !digit_not_dot, pad2_no_dot. Qed.

Lemma strftime_archive_no_dot d : has_char "." (Py.strftime_archive d) = false.
Proof.
  unfold Py.strftime_archive.
  rewrite !has_char_app, pad4_no_dot, !pad2_no_dot. reflexivity.
Qed.

Lemma unity_ip_of_no_dot url : has_char "." (unity_ip_of url) = false.
Proof.
  unfold unity_ip_of. destruct (Py.search_url url) as [g|] eqn:H; [|reflexivity].
  destruct (search_url_group _ _ H) as [_ Hd]. now apply replace_dotted.
Qed.

Lemma rsplit_dot_app a b :
  has_char "." a = false ->
  Py.rsplit_dot (a +:+ b)
  = match Py.rsplit_dot b with
    | Some (root, ext) => Some (a +:+ root, ext)
    | None => None
    end.
Proof.
  induction a as [|c a IH]; intros Ha.
  - change ("" +:+ b) with b. now destruct (Py.rsplit_dot b) as [[r e]|].
  - cbn [has_char] in Ha. apply orb_false_iff in Ha as [Hc Ha].
    change (String c a +:+ b) with (String c (a +:+ b)).
    cbn [Py.rsplit_dot]. rewrite (IH Ha).
    destruct (Py.rsplit_dot b) as [[r e]|]; [reflexivity|]. now rewrite Hc.
Qed.

Lemma rsplit_dot_ext p root ext :
  Py.rsplit_dot p = Some (root, ext) -> Py.rsplit_dot ext = Some ("", ext).
Proof.
  revert root. induction p as [|c t IH]; intros root; cbn [Py.rsplit_dot]; [discriminate|].
  destruct (Py.rsplit_dot t) as [[r e]|] eqn:Ht.
  - intros [= <- <-]. eapply IH; eauto.
  - destruct (Ascii.eqb c ".") eqn:Hc; [|discriminate].
    intros [= <- <-]. cbn [Py.rsplit_dot]. now rewrite Ht, Hc.
Qed.

Lemma splitext_ext f :
  (Py.splitext f).2 = "" \/ Py.rsplit_dot (Py.splitext f).2 = Some ("", (Py.splitext f).2).
Proof.
  unfold Py.splitext. destruct (Py.rsplit_dot f) as [[r e]|] eqn:H; [|now left].
  destruct (Py.all_dots r); [now left|]. right. cbn [snd]. eapply rsplit_dot_ext; eauto.
Qed.

Lemma all_dots_has_dot s : s <> "" -> has_char "." s = false -> Py.all_dots s = false.
Proof.
  destruct s as [|c s]; [contradiction|]. intros _. cbn.
  intros [-> _]%orb_false_iff. reflexivity.
Qed.

(** Property X14 (lines 418-422 and 737-740).  For a prefix without a
    dot, the archive name has the extension of the downloaded file, and
    nothing before that extension holds a dot: splitting the new name
    gives back the extension it was built with. *)
Theorem archive_name_keeps_extension
    (prefix unity_url : string) (d : Py.datetime) (backup_file : string) :
  has_char "." prefix = false ->
  (Py.splitext (new_name prefix unity_url d backup_file)).2 = (Py.splitext backup_file).2
  /\ has_char "." (Py.splitext (new_name prefix unity_url d backup_file)).1 = false.
Proof.
  intros Hp. unfold new_name. cbv zeta.
  set (ext := snd (Py.splitext backup_file)).
  set (stem := fun e => prefix +:+ "_" +:+ Py.strftime_archive d +:+ "-IP-"
                        +:+ unity_ip_of unity_url +:+ e).
  assert (forall e, has_char "." e = false -> has_char "." (stem e) = false) as Hstem.
  { intros e He. unfold stem.
    now rewrite !has_char_app, Hp, strftime_archive_no_dot, unity_ip_of_no_dot, He. }
  assert (forall e, Py.rsplit_dot (stem e)
                    = match Py.rsplit_dot e with
                      | Some (root, x) => Some (stem root, x)
                      | None => None
                      end) as Hsplit.
  { intros e. unfold stem.
    rewrite (rsplit_dot_app prefix) by exact Hp.
    rewrite (rsplit_dot_app "_") by reflexivity.
    rewrite (rsplit_dot_app (Py.strftime_archive d)) by apply strftime_archive_no_dot.
    rewrite (rsplit_dot_app "-IP-") by reflexivity.
    rewrite (rsplit_dot_app (unity_ip_of unity_url)) by apply unity_ip_of_no_dot.
    now destruct (Py.rsplit_dot e) as [[r x]|]. }
  fold (stem ext). unfold Py.splitext. rewrite Hsplit.
  destruct (splitext_ext backup_file) as [He | He]; fold ext in He.
  - rewrite He. cbn [Py.rsplit_dot fst snd]. split; [reflexivity|]. now apply Hstem.
  - rewrite He.
    rewrite all_dots_has_dot; [| unfold stem; destruct prefix; discriminate | now apply Hstem].
    cbn [fst snd]. split; [reflexivity|]. now apply Hstem.
Qed.

(** Property X14 for a configuration backup whose name holds several
    dots. *)
Lemma archive_name_keeps_extension_witness :
  (Py.splitext (new_name config_prefix "https://10.0.0.5/cas/login"
                  (Py.mkDatetime 2024 3 7 9 5 30) "My.Array.backup.cfg")).2
  = (Py.splitext "My.Array.backup.cfg").2
  /\ has_char "." (Py.splitext (new_name config_prefix "https://10.0.0.5/cas/login"
                                  (Py.mkDatetime 2024 3 7 9 5 30) "My.Array.backup.cfg")).1
     = false.
Proof. apply archive_name_keeps_extension. reflexivity. Defined.

Lemma lower_char_idem c : Py.lower_char (Py.lower_char c) = Py.lower_char c.
Proof. destruct c as [[] [] [] [] [] [] [] []]; reflexivity. Qed.

Lemma lower_idem s : Py.lower (Py.lower s) = Py.lower s.
Proof. induction s as [|c s IH]; cbn; [reflexivity | now rewrite IH, lower_char_idem]. Qed.

(** Property X15 ([UnityBackup.__init__], lines 37-48).  The URL of the
    object starts with [http], and building an object from the fields
    of an object gives the same object: the constructor's normalisation
    of the URL and of the browser name is idempotent.  The constructor
    makes no call and leaves [self.driver] unset. *)
Theorem init_is_idempotent
    (url user : string) (pw : option string) (br : string) (w w' : World)
    (self : UnityBackup) :
  UnityBackup_init url user pw br w = (Normal self, w') ->
  Py.startswith (unity_url self) "http" = true
  /\ (UnityBackup_init (unity_url self) (username self) (password self) (browser self) w').1
     = Normal self
  /\ hist w' = hist w /\ driver w' = false.
Proof.
  intros Hi.
  assert (self = mkUnityBackup
                   (if Py.startswith url "http" then url else "https://" +:+ url)
                   user pw (Py.lower br)
          /\ w' = mkWorld (hist w) (fs w) false) as [-> ->]
    by (unfold UnityBackup_init in Hi; split; congruence).
  clear Hi. unfold UnityBackup_init. cbn [fst hist driver unity_url username password browser].
  assert (Py.startswith (if Py.startswith url "http" then url else "https://" +:+ url) "http"
          = true) as H by (destruct (Py.startswith url "http") eqn:E; [exact E | reflexivity]).
  rewrite H, lower_idem. auto.
Qed.

(** Property X15 for a bare host and a capitalised browser name. *)
Lemma init_is_idempotent_witness :
  let self := mkUnityBackup "https://10.0.0.5" "admin" None "edge" in
  Py.startswith (unity_url self) "http" = true
  /\ (UnityBackup_init (unity_url self) (username self) (password self) (browser self)
        (fresh ex_world)).1
     = Normal self
  /\ hist (fresh ex_world) = hist ex_world /\ driver (fresh ex_world) = false.
Proof.
  cbv zeta.
  apply (init_is_idempotent "10.0.0.5" "admin" None "Edge" ex_world). reflexivity.
Defined.


Lemma click_candidate (env : Env) (name : string) (el : elem) (w : World) :
  let s :=
    try_except
      (shown <- ask env (IsDisplayed el) (fun h => displayed env h el);;
       named <- (if shown
                 then t <- ask env (GetText el) (fun h => text_of env h el);;
                      ret (Py.contains t name)
                 else ret false);;
       if named then
         perform env (TagName el);;
         perform env (GetText el);;
         perform env (GetAttribute el "class");;
         scroll_and_click env [2] el;;
         ret true
       else ret false)
      is_Exception (ret false) in
  ((s w).1 = Normal true
   /\ hist (s w).2 = hist w ++ clicked_by_text el
   /\ displayed env (hist w) el = true
   /\ Py.contains (text_of env (hist w ++ [IsDisplayed el]) el) name = true
   /\ fails env (hist w ++ removelast (removelast (clicked_by_text el))) (Click el) = None)
  \/ (s w).1 = Normal false.
Proof.
  cbv zeta.
  unfold scroll_and_click. cbn [fold_right].
  unfold try_except, bind, ask, perform, sleep, ret, before, clicked_by_text.
  cbn [fold_right hist fs driver removelast].
  destruct (fails env (hist w) (IsDisplayed el)); cbn [fst snd hist is_Exception]; [now right|].
  destruct (displayed env (hist w) el) eqn:Hshown; cbn [fst snd hist]; [|now right].
  destruct (fails env _ (GetText el)); cbn [fst snd hist is_Exception]; [now right|].
  destruct (Py.contains _ name) eqn:Hnamed; cbn [fst snd hist]; [|now right].
  repeat match goal with
         | |- context [match fails env ?h ?o with _ => _ end] =>
             destruct (fails env h o) eqn:?; cbn [fst snd hist fs driver is_Exception];
             [now right|]
         end.
  left. rewrite <- !app_assoc. cbn [app].
  repeat split; auto.
  rewrite <- !app_assoc in *. cbn [app] in *. assumption.
Qed.

(** Property X16 (the last resort of the keystore steps, lines 502-518,
    583-599 and 666-682).  The scan of the candidates ends with True or
    False and never raises.  When it ends with True, its last calls
    are the scroll to one of the candidates, the click on it, which
    succeeded, and the sleep of 2 seconds; that candidate was displayed
    and its text held the name that was looked for. *)
Theorem click_by_text_found
    (env : Env) (name : string) (candidates : list elem) (w : World) :
  (exists h el,
      (click_by_text env name candidates w).1 = Normal true
      /\ In el candidates
      /\ hist (click_by_text env name candidates w).2 = h ++ clicked_by_text el
      /\ displayed env h el = true
      /\ Py.contains (text_of env (h ++ [IsDisplayed el]) el) name = true
      /\ fails env (h ++ removelast (removelast (clicked_by_text el))) (Click el) = None)
  \/ (click_by_text env name candidates w).1 = Normal false.
Proof.
  revert w. induction candidates as [|el rest IH]; intros w; [now right|].
  cbn [click_by_text].
  match goal with
  | |- context [bind ?m ?k w] =>
      change (bind m k w) with
        (match m w with
         | (Normal a, w') => k a w'
         | (Return b, w') => (Return b, w')
         | (Raise e, w') => (Raise e, w')
         | (OutOfFuel, w') => (OutOfFuel, w')
         end)
  end.
  destruct (click_candidate env name el w) as [(Hr & Hh & Hd & Hn & Hc) | Hr];
    cbv zeta in *.
  - destruct (try_except _ _ _ w) as [r w1]. cbn [fst snd] in *. subst r.
    left. exists (hist w), el. cbn [ret fst snd In]. auto 10.
  - destruct (try_except _ _ _ w) as [r w1]. cbn [fst snd] in *. subst r.
    destruct (IH w1) as [(h & el' & H1 & H2 & H3) | H]; [left | now right].
    exists h, el'. cbn [In]. auto.
Qed.

(** ** Locator chains, archive names and the gate of [main] *)

Lemma waited_waits timeout c ls : waited (map (WaitUntil timeout c) ls) = ls.
Proof. induction ls as [|l ls IH]; simpl; congruence. Qed.

Lemma settle_sleeps env (settle : list Z) (w : World) :
  exists w',
    fold_right (fun s k => sleep env s;; k) (ret tt) settle w = (Normal tt, w')
    /\ hist w' = hist w ++ map Sleep settle.
Proof.
  revert w. induction settle as [|s settle IH]; intros w; cbn [fold_right map].
  - exists w. now rewrite app_nil_r.
  - unfold bind at 1, sleep.
    destruct (IH (before env (Sleep s) w)) as (w' & Hr & Hh).
    exists w'. split; [exact Hr|]. rewrite Hh. cbn [hist before]. now rewrite <- app_assoc.
Qed.

Section Attempts.

Variable env : Env.
Variable timeout : Z.
Variable c : cond.

Lemma timeouts_continue pre var w :
  (forall k l', pre !! k = Some l' ->
     fails env (hist w ++ map (WaitUntil timeout c) (take k pre)) (WaitUntil timeout c l')
     = Some TimeoutException) ->
  exists w1,
    continues env is_TimeoutException timeout c (fun _ => ret tt) pre var w = Some (var, w1)
    /\ hist w1 = hist w ++ map (WaitUntil timeout c) pre.
Proof.
  revert w. induction pre as [|l0 rest IH]; intros w H; cbn [continues map].
  - exists w. now rewrite app_nil_r.
  - pose proof (H 0%nat l0 eq_refl) as H0. cbn [take map] in H0. rewrite app_nil_r in H0.
    unfold try_locator, try_except, bind, wait_until, ask. rewrite H0.
    cbn [fst snd is_TimeoutException ret].
    destruct (IH (before env (WaitUntil timeout c l0) w)) as (w1 & Hc & Hh).
    { intros k l' Hk. cbn [hist before]. rewrite <- app_assoc. apply (H (S k) l' Hk). }
    exists w1. split; [exact Hc|]. rewrite Hh. cbn [hist before]. now rewrite <- app_assoc.
Qed.

Lemma wait_breaks var l w :
  fails env (hist w) (WaitUntil timeout c l) = None ->
  try_locator env is_TimeoutException timeout c (fun _ => ret tt) var l w
  = (Normal (Break (Elem l 0)), before env (WaitUntil timeout c l) w).
Proof.
  intros H. unfold try_locator, try_except, bind, wait_until, ask. now rewrite H.
Qed.

Variable settle : list Z.

Lemma failed_clicks_continue pre var w h1 :
  after_failed_clicks env timeout c settle pre (hist w) = Some h1 ->
  exists var1 w1,
    continues env is_Exception timeout c (scroll_and_click env settle) pre var w
    = Some (var1, w1)
    /\ hist w1 = h1.
Proof.
  revert var w. induction pre as [|l0 rest IH]; intros var w; cbn [after_failed_clicks continues].
  - intros [= <-]. eauto.
  - unfold click_attempt, try_locator, try_except, bind, wait_until, ask, scroll_and_click,
      bind, perform, sleep. cbv zeta.
    destruct (fails env (hist w) (WaitUntil timeout c l0)) as [x|];
      cbn [fst snd is_Exception ret hist before].
    { intros H. apply (IH var (before env (WaitUntil timeout c l0) w)). exact H. }
    destruct (fails env (hist w ++ [WaitUntil timeout c l0]) _) as [x|];
      cbn [fst snd is_Exception ret hist before].
    { intros H. eapply IH. cbn [hist before]. rewrite <- !app_assoc. exact H. }
    rewrite <- !app_assoc. cbn [app].
    destruct (fails env (hist w ++ _) (Click _)) as [x|];
      cbn [fst snd is_Exception ret hist before]; [|discriminate].
    intros H. eapply IH. cbn [hist before]. rewrite <- !app_assoc. exact H.
Qed.

Lemma click_breaks var l w :
  fails env (hist w) (WaitUntil timeout c l) = None ->
  fails env (hist w ++ [WaitUntil timeout c l]) (ExecuteScript (ScrollIntoView (Elem l 0)))
  = None ->
  fails env (hist w ++ [WaitUntil timeout c l; ExecuteScript (ScrollIntoView (Elem l 0));
                        Sleep 1]) (Click (Elem l 0)) = None ->
  exists w2,
    try_locator env is_Exception timeout c (scroll_and_click env settle) var l w
    = (Normal (Break (Elem l 0)), w2)
    /\ hist w2 = hist w ++ [WaitUntil timeout c l; ExecuteScript (ScrollIntoView (Elem l 0));
                            Sleep 1; Click (Elem l 0)] ++ map Sleep settle.
Proof.
  intros Hw Hs Hc.
  unfold try_locator, try_except, bind, wait_until, ask, scroll_and_click, bind, perform, sleep.
  rewrite Hw. cbn [fst snd hist before]. rewrite Hs. cbn [fst snd hist before].
  rewrite <- !app_assoc. cbn [app]. rewrite Hc.
  match goal with
  | |- context [fold_right ?f ?z settle ?w0] =>
      destruct (settle_sleeps env settle w0) as (w2 & Hr & Hh)
  end.
  unfold bind, sleep in Hr. rewrite Hr. cbn [ret]. exists w2. split; [reflexivity|].
  rewrite Hh. cbn [hist before]. rewrite <- !app_assoc. reflexivity.
Qed.

End Attempts.

(** Claim C1, as amended, stated on what the browser answers.
    First conjunct, the chains of [login] (lines 171-179 and 233-240):
    when the waits for the locators of [pre], made one after the other,
    all end in a timeout and the wait for [l] that follows answers, the
    chain ends with the element of [l] and has waited for the locators
    of [pre] and for [l], in that order, and for none of [post].
    Second conjunct, the chains that click (lines 309-323 and their
    siblings): when each attempt on a locator of [pre] raises, at its
    wait, at its scroll or at its click ([after_failed_clicks]), and
    the wait, the scroll and the click for [l] raise nothing, the chain
    ends with the element of [l]; the calls it adds after the failed
    attempts are those of the attempt on [l], and the locators waited
    for are those of [pre] and [l], none of [post].  A click that
    raises is thus followed by the next locator. *)
Theorem chain_stops_at_first_completed
    (env : Env) (timeout : Z) (c : cond) (settle : list Z)
    (pre : list locator) (l : locator) (post : list locator)
    (var : option elem) (w : World) :
  ((forall k l', pre !! k = Some l' ->
      fails env (hist w ++ map (WaitUntil timeout c) (take k pre)) (WaitUntil timeout c l')
      = Some TimeoutException) ->
   fails env (hist w ++ map (WaitUntil timeout c) pre) (WaitUntil timeout c l) = None ->
   (for_locators env is_TimeoutException timeout c (fun _ => ret tt) (pre ++ l :: post) var w).1
   = Normal (Some (Elem l 0))
   /\ hist (for_locators env is_TimeoutException timeout c (fun _ => ret tt)
              (pre ++ l :: post) var w).2
      = hist w ++ map (WaitUntil timeout c) (pre ++ [l]))
  /\ (forall h1,
        after_failed_clicks env timeout c settle pre (hist w) = Some h1 ->
        fails env h1 (WaitUntil timeout c l) = None ->
        fails env (h1 ++ [WaitUntil timeout c l]) (ExecuteScript (ScrollIntoView (Elem l 0)))
        = None ->
        fails env (h1 ++ [WaitUntil timeout c l; ExecuteScript (ScrollIntoView (Elem l 0));
                          Sleep 1]) (Click (Elem l 0)) = None ->
        (for_locators env is_Exception timeout c (scroll_and_click env settle)
           (pre ++ l :: post) var w).1 = Normal (Some (Elem l 0))
        /\ hist (for_locators env is_Exception timeout c (scroll_and_click env settle)
                   (pre ++ l :: post) var w).2
           = h1 ++ [WaitUntil timeout c l; ExecuteScript (ScrollIntoView (Elem l 0));
                    Sleep 1; Click (Elem l 0)] ++ map Sleep settle
        /\ waited (hist (for_locators env is_Exception timeout c (scroll_and_click env settle)
                           (pre ++ l :: post) var w).2)
           = waited (hist w) ++ pre ++ [l]).
Proof.
  split.
  - intros Hpre Hl.
    destruct (timeouts_continue env timeout c pre var w Hpre) as (w1 & Hc & Hh).
    rewrite <- Hh in Hl. pose proof (wait_breaks env timeout c var l w1 Hl) as Hb.
    assert (forall e : elem, emits no_wait (@ret unit tt)) as Hact
      by (intros x; apply emits_nothing; intros w0; split; reflexivity).
    destruct (chain_stops env is_TimeoutException timeout c (fun _ => ret tt)
                Hact pre l post var w var w1 _ _ Hc Hb) as (Hrun & _ & _).
    rewrite Hrun. cbn [fst snd hist before]. rewrite Hh, map_app, <- app_assoc. auto.
  - intros h1 Hpre Hw Hs Hk.
    destruct (failed_clicks_continue env timeout c settle pre var w h1 Hpre)
      as (var1 & w1 & Hc & Hh).
    rewrite <- Hh in Hw, Hs, Hk.
    destruct (click_breaks env timeout c settle var1 l w1 Hw Hs Hk) as (w2 & Hb & Hh2).
    assert (forall e : elem, emits no_wait (scroll_and_click env settle e)) as Hact
      by (intros x; apply emits_scroll_and_click; try reflexivity;
          apply List.forallb_forall; reflexivity).
    destruct (chain_stops env is_Exception timeout c (scroll_and_click env settle)
                Hact pre l post var w var1 w1 _ _ Hc Hb) as (Hrun & _ & Hwt).
    rewrite Hrun. cbn [fst snd]. rewrite <- Hh. auto.
Qed.

(** Claim C1, as amended, at the Execute chain when the click on the
    first element raises: the attempt on the second locator completes,
    the third locator is never waited for. *)
Lemma chain_stops_at_first_completed_witness :
  let env := ex_env (click_fails execute_first) nothing_arrives EmptyString in
  let run := for_locators env is_Exception 30 Clickable (scroll_and_click env [2])
               ([execute_first] ++ execute_second
                  :: [(XPATH, "//span[@id='button-1512-btnWrap']")]) None ex_world in
  let h1 := hist ex_world
            ++ [WaitUntil 30 Clickable execute_first;
                ExecuteScript (ScrollIntoView (Elem execute_first 0)); Sleep 1;
                Click (Elem execute_first 0)] in
  fails env (hist ex_world ++ [WaitUntil 30 Clickable execute_first;
                               ExecuteScript (ScrollIntoView (Elem execute_first 0)); Sleep 1])
    (Click (Elem execute_first 0)) = Some WebDriverException
  /\ run.1 = Normal (Some (Elem execute_second 0))
  /\ hist run.2
     = h1 ++ [WaitUntil 30 Clickable execute_second;
              ExecuteScript (ScrollIntoView (Elem execute_second 0)); Sleep 1;
              Click (Elem execute_second 0)] ++ map Sleep [2]
  /\ waited (hist run.2) = waited (hist ex_world) ++ [execute_first] ++ [execute_second].
Proof.
  cbv zeta. split; [reflexivity|].
  apply (proj2 (chain_stops_at_first_completed
                  (ex_env (click_fails execute_first) nothing_arrives EmptyString)
                  30 Clickable [2] [execute_first] execute_second
                  [(XPATH, "//span[@id='button-1512-btnWrap']")] None ex_world));
    reflexivity.
Defined.











Lemma wait_for_download_listing_fails
    (env : Env) (self : UnityBackup) (accepts : string -> bool)
    (prefix target_dir : string) (w : World) (e : err) :
  fails env (hist w) (Listdir (download_dir env)) = Some e ->
  wait_for_download env self accepts prefix target_dir w
  = (Raise (Err e), before env (Listdir (download_dir env)) w).
Proof. intros H. unfold wait_for_download, bind, listdir. now rewrite H. Qed.



Section TrueAfter.

Variable Q : World -> Prop.

Lemma true_after_never {A} (ok : exn -> bool) (s : Stmt A) :
  ends ok false s -> true_after Q s.
Proof. intros H w Hr. specialize (H w). rewrite Hr in H. discriminate H. Qed.

Lemma true_after_return_false {A} : true_after Q (@return_ A false).
Proof. intros w H. discriminate H. Qed.

Lemma true_after_bind {A B} (m : Stmt A) (k : A -> Stmt B) :
  true_after Q m -> (forall a, true_after Q (k a)) -> true_after Q (bind m k).
Proof.
  intros Hm Hk w. unfold bind. specialize (Hm w).
  destruct (m w) as [[a|b|e|] w1]; cbn [fst snd] in *; try discriminate.
  - apply Hk.
  - intros [= ->]. now apply Hm.
Qed.

Lemma true_after_try_except {A} (body handler : Stmt A) (catches : exn -> bool) :
  true_after Q body -> true_after Q handler -> true_after Q (try_except body catches handler).
Proof.
  intros Hb Hh w. unfold try_except. specialize (Hb w).
  destruct (body w) as [[a|b|e|] w1]; cbn [fst snd] in *; try discriminate.
  - intros [= ->]. now apply Hb.
  - destruct (catches e); [apply Hh | discriminate].
Qed.

Lemma true_after_call (m : method) (body : Stmt unit) (w : World) :
  true_after Q body -> (call m body w).1 = Normal true -> Q (call m body w).2.
Proof.
  intros Hb. unfold call.
  specialize (Hb (mkWorld (hist w ++ [Enter m]) (fs w) (driver w))).
  destruct (body _) as [[a|b|e|] w1]; cbn [fst snd] in *; try discriminate.
  intros [= ->]. now apply Hb.
Qed.

End TrueAfter.

Ltac never_true :=
  eapply (true_after_never _ any_exn);
  solve [ repeat first [ apply ends_save_debug; ok_err
                       | apply ends_click_by_text; ok_err
                       | ends_step ] ].

Ltac true_after_tac :=
  repeat first
    [ never_true
    | apply true_after_return_false
    | apply true_after_try_except
    | apply true_after_bind; [|intros ?]
    | match goal with
      | |- true_after _ (match ?x with _ => _ end) => destruct x
      end ].

Section Archived.

Variable env : Env.
Variable self : UnityBackup.

Lemma true_after_archive prefix target_dir f :
  true_after (archived env) (archive env self prefix target_dir f).
Proof.
  intros w. unfold archive, try_except, bind, now, perform, shutil_move, return_, before.
  cbn [hist fs driver fst snd].
  destruct (fails env _ (Makedirs target_dir)); cbn [fst snd is_Exception]; [discriminate|].
  destruct (fails env _ (Move _ _)) eqn:Hm; cbn [fst snd is_Exception]; [discriminate|].
  match goal with
  | |- context [match ?x with Some _ => _ | None => _ end] => destruct x as [content|]
  end; cbn [fst snd is_Exception hist fs]; [|discriminate].
  intros _. eexists _, _, _, content. split; [reflexivity|]. split; [exact Hm|].
  apply lookup_insert_eq.
Qed.

Lemma true_after_wait_for_download accepts prefix target_dir :
  true_after (archived env) (wait_for_download env self accepts prefix target_dir).
Proof.
  unfold wait_for_download. cbv zeta. generalize (Z.to_nat 120). intros fuel.
  apply true_after_bind; [never_true | intros before_files].
  apply true_after_bind; [|intros _; apply true_after_return_false].
  generalize 0. induction fuel as [|fuel IH]; intros elapsed; cbn [while_elapsed];
    destruct (elapsed <? 120); try (intros w H; discriminate H).
  apply true_after_bind.
  - unfold poll. apply true_after_bind; [never_true | intros after_files].
    destruct (first_accepted _ _) as [f|]; [|intros w H; discriminate H].
    destruct (truthy f); [apply true_after_archive | intros w H; discriminate H].
  - intros _. apply true_after_bind; [never_true | intros _; apply IH].
Qed.

Lemma backup_workflow_true w :
  (backup_workflow env self w).1 = Normal true ->
  archived env (backup_workflow env self w).2.
Proof.
  unfold backup_workflow. apply true_after_call.
  apply true_after_try_except; [|apply true_after_return_false].
  repeat first [ apply true_after_wait_for_download
               | apply true_after_bind; [solve [true_after_tac] | intros ?] ].
Qed.

Lemma encryption_keystore_backup_true w :
  (encryption_keystore_backup env self w).1 = Normal true ->
  archived env (encryption_keystore_backup env self w).2.
Proof.
  unfold encryption_keystore_backup, click_named. apply true_after_call.
  repeat first [ apply true_after_wait_for_download
               | apply true_after_bind; [solve [true_after_tac] | intros ?] ].
Qed.

End Archived.

Section Keeps.

Variable env : Env.
Variable p : path.

Hypothesis quiet : forall h files, evolve env h files !! p = files !! p.

Lemma keeps_ret {A} (a : A) : keeps p (ret a).
Proof. now intros w. Qed.

Lemma keeps_return {A} (b : bool) : keeps p (@return_ A b).
Proof. now intros w. Qed.

Lemma keeps_raise {A} (e : exn) : keeps p (@raise A e).
Proof. now intros w. Qed.

Lemma keeps_out_of_fuel {A} : keeps p (fun w => (@OutOfFuel A, w)).
Proof. now intros w. Qed.

Lemma keeps_bind {A B} (m : Stmt A) (k : A -> Stmt B) :
  keeps p m -> (forall a, keeps p (k a)) -> keeps p (bind m k).
Proof.
  intros Hm Hk w. unfold bind. specialize (Hm w).
  destruct (m w) as [[a|b|e|] w1]; cbn [fst snd] in *; auto.
  now rewrite Hk.
Qed.

Lemma keeps_try_except {A} (body handler : Stmt A) (catches : exn -> bool) :
  keeps p body -> keeps p handler -> keeps p (try_except body catches handler).
Proof.
  intros Hb Hh w. unfold try_except. specialize (Hb w).
  destruct (body w) as [[a|b|e|] w1]; cbn [fst snd] in *; auto.
  destruct (catches e); cbn [fst snd]; auto. now rewrite Hh.
Qed.

Lemma keeps_call (m : method) (body : Stmt unit) : keeps p body -> keeps p (call m body).
Proof.
  intros Hb w. unfold call.
  specialize (Hb (mkWorld (hist w ++ [Enter m]) (fs w) (driver w))).
  now destruct (body _) as [[a|b|e|] w1].
Qed.

Lemma keeps_perform (o : op) : keeps p (perform env o).
Proof. intros w. unfold perform. destruct (fails env _ _); apply quiet. Qed.

Lemma keeps_ask {A} (o : op) (f : list op -> A) : keeps p (ask env o f).
Proof. intros w. unfold ask. destruct (fails env _ _); apply quiet. Qed.

Lemma keeps_wait_until timeout c l : keeps p (wait_until env timeout c l).
Proof. apply keeps_ask. Qed.

Lemma keeps_sleep secs : keeps p (sleep env secs).
Proof. intros w. apply quiet. Qed.

Lemma keeps_now : keeps p (now env).
Proof. intros w. apply quiet. Qed.

Lemma keeps_listdir dir : keeps p (listdir env dir).
Proof. intros w. unfold listdir. cbv zeta. destruct (fails env _ _); apply quiet. Qed.

Lemma keeps_write_file o q content : q <> p -> keeps p (write_file env o q content).
Proof.
  intros Hq w. unfold write_file. cbv zeta.
  destruct (fails env _ _); cbn [fst snd fs]; [apply quiet|].
  rewrite lookup_insert_ne by exact Hq. apply quiet.
Qed.

Lemma keeps_shutil_move src dst : src <> p -> dst <> p -> keeps p (shutil_move env src dst).
Proof.
  intros Hs Hd w. unfold shutil_move. cbv zeta.
  destruct (fails env _ _); cbn [fst snd fs]; [apply quiet|].
  match goal with
  | |- context [match ?x with Some _ => _ | None => _ end] => destruct x
  end; cbn [fst snd fs]; [|apply quiet].
  rewrite lookup_insert_ne, lookup_delete_ne by assumption. apply quiet.
Qed.

Lemma keeps_scroll_and_click settle e : keeps p (scroll_and_click env settle e).
Proof.
  unfold scroll_and_click.
  apply keeps_bind; [apply keeps_perform | intros _].
  apply keeps_bind; [apply keeps_sleep | intros _].
  apply keeps_bind; [apply keeps_perform | intros _].
  induction settle as [|s settle IH]; cbn [fold_right]; [apply keeps_ret|].
  apply keeps_bind; [apply keeps_sleep | intros _; exact IH].
Qed.

Lemma keeps_for_locators catches timeout c act locators var :
  (forall e, keeps p (act e)) ->
  keeps p (for_locators env catches timeout c act locators var).
Proof.
  intros Hact. revert var.
  induction locators as [|l rest IH]; intros var; cbn [for_locators]; [apply keeps_ret|].
  apply keeps_bind.
  - unfold try_locator. apply keeps_try_except; [|apply keeps_ret].
    apply keeps_bind; [apply keeps_wait_until | intros e].
    apply keeps_try_except; [|apply keeps_ret].
    apply keeps_bind; [apply Hact | intros _; apply keeps_ret].
  - intros [e|var']; [apply keeps_ret | apply IH].
Qed.

Lemma keeps_while_elapsed fuel timeout poll_interval body elapsed :
  keeps p body -> keeps p (while_elapsed env fuel timeout poll_interval body elapsed).
Proof.
  intros Hb. revert elapsed.
  induction fuel as [|fuel IH]; intros elapsed; cbn [while_elapsed];
    destruct (elapsed <? timeout); try apply keeps_ret; [apply keeps_out_of_fuel|].
  apply keeps_bind; [apply Hb | intros _].
  apply keeps_bind; [apply keeps_sleep | intros _; apply IH].
Qed.

Hypothesis not_debug : p.1 <> debug_dir env.

Lemma keeps_save_debug name : keeps p (save_debug env name).
Proof.
  assert (forall n, (debug_dir env, n) <> p) as Hn by (intros n <-; now apply not_debug).
  unfold save_debug.
  apply keeps_bind; [apply keeps_perform | intros _].
  apply keeps_bind; [apply keeps_now | intros d].
  apply keeps_bind; [|intros _]; apply keeps_try_except;
    try apply keeps_ret; apply keeps_write_file, Hn.
Qed.

Lemma keeps_click_by_text name candidates : keeps p (click_by_text env name candidates).
Proof.
  induction candidates as [|el rest IH]; cbn [click_by_text]; [apply keeps_ret|].
  apply keeps_bind; [|intros [|]; [apply keeps_ret | apply IH]].
  apply keeps_try_except; [|apply keeps_ret].
  repeat first
    [ apply keeps_ret | apply keeps_perform | apply keeps_ask
    | apply keeps_scroll_and_click
    | apply keeps_bind; [|intros ?]
    | match goal with |- keeps _ (match ?x with _ => _ end) => destruct x end ].
Qed.

Hypothesis not_download : p.1 <> download_dir env.

Lemma keeps_wait_for_download self accepts prefix target_dir :
  p.1 <> target_dir ->
  keeps p (wait_for_download env self accepts prefix target_dir).
Proof.
  intros Ht.
  assert (forall n, (download_dir env, n) <> p) as Hs by (intros n <-; now apply not_download).
  assert (forall n, (target_dir, n) <> p) as Hd by (intros n <-; now apply Ht).
  unfold wait_for_download. cbv zeta.
  apply keeps_bind; [apply keeps_listdir | intros before_files].
  apply keeps_bind; [|intros _; apply keeps_return].
  apply keeps_while_elapsed. unfold poll.
  apply keeps_bind; [apply keeps_listdir | intros after_files].
  destruct (first_accepted _ _) as [f|]; [|apply keeps_ret].
  destruct (truthy f); [|apply keeps_ret].
  unfold archive. apply keeps_bind; [|intros _; apply keeps_return].
  apply keeps_try_except; [|apply keeps_return].
  apply keeps_bind; [apply keeps_now | intros d].
  apply keeps_bind; [apply keeps_perform | intros _].
  apply keeps_shutil_move; [apply Hs | apply Hd].
Qed.

Lemma keeps_encryption_keystore_backup self :
  p.1 <> keystore_target_dir ->
  keeps p (encryption_keystore_backup env self).
Proof.
  intros Ht. unfold encryption_keystore_backup, click_named. apply keeps_call.
  repeat first
    [ apply keeps_wait_for_download; exact Ht
    | apply keeps_ret | apply keeps_return | apply keeps_raise
    | apply keeps_try_except
    | apply keeps_save_debug
    | apply keeps_click_by_text
    | apply keeps_perform | apply keeps_wait_until | apply keeps_ask | apply keeps_sleep
    | apply keeps_scroll_and_click
    | apply keeps_for_locators; intros ?
    | apply keeps_bind; [|intros ?]
    | match goal with |- keeps _ (match ?x with _ => _ end) => destruct x end ].
Qed.

End Keeps.

Lemma call_enters (P : op -> bool) (m : method) (body : Stmt unit) (w : World) :
  emits P body -> exists t, hist (call m body w).2 = hist w ++ Enter m :: t.
Proof.
  intros Hb. unfold call.
  destruct (Hb (mkWorld (hist w ++ [Enter m]) (fs w) (driver w))) as (t & Ht & _).
  cbn [hist] in Ht. exists t.
  destruct (body _) as [[a|b|e|] w1]; cbn [fst snd] in *; now rewrite Ht, <- app_assoc.
Qed.

Lemma keystore_enters (env : Env) (self : UnityBackup) (w : World) :
  exists t,
    hist (encryption_keystore_backup env self w).2
    = hist w ++ Enter m_encryption_keystore_backup :: t.
Proof.
  unfold encryption_keystore_backup. apply (call_enters (fun _ => true)).
  unfold click_named, wait_for_download, poll, archive. emits_tac.
Qed.

Lemma config_target_dir_not_debug_dir (env : Env) : config_target_dir <> debug_dir env.
Proof.
  intros H. apply (f_equal last_char) in H. unfold debug_dir in H.
  rewrite last_char_app in H by discriminate. discriminate.
Qed.

Section Gate.

Variable env : Env.
Variable self : UnityBackup.

Lemma gate_of_main w w1 b w2 :
  login env self w = (Normal true, w1) ->
  backup_workflow env self w1 = (Normal b, w2) ->
  (exists t,
      hist w2 = hist w ++ t
      /\ existsb (is_enter m_encryption_keystore_backup) t = false)
  /\ if b then
       exists t t',
         hist (backup_steps env self w).2
         = hist w2 ++ Print completed :: t ++ Enter m_encryption_keystore_backup :: t'
         /\ existsb (is_enter m_encryption_keystore_backup) t = false
     else backup_steps env self w = (Normal tt, before env (Print failed) w2).
Proof.
  intros Hl Hb. split.
  - destruct (emits_login env self w) as (t1 & H1 & HP1 & _).
    destruct (emits_backup_workflow env self w1) as (t2 & H2 & HP2 & _).
    rewrite Hl in H1. rewrite Hb in H2. cbn [snd] in *.
    exists (t1 ++ t2). rewrite H2, H1, app_assoc. split; [reflexivity|].
    rewrite existsb_app.
    rewrite (forallb_not_existsb (within m_login) (is_enter m_encryption_keystore_backup));
      [|now intros [[]| | | | | | | | | | | | | | | | | | | | | | | | | | | |]|exact HP1].
    rewrite (forallb_not_existsb (within m_backup_workflow)
               (is_enter m_encryption_keystore_backup));
      [reflexivity|now intros [[]| | | | | | | | | | | | | | | | | | | | | | | | | | | |]|exact HP2].
  - unfold backup_steps, bind. rewrite Hl, Hb. destruct b; [|reflexivity].
    unfold print at 1. unfold try_except, bind, perform, sleep.
    cbn [hist before].
    destruct (fails env _ (Get _)); cbn [fst snd is_Exception ret].
    + match goal with
      | |- context [encryption_keystore_backup env self ?w3] =>
          destruct (keystore_enters env self w3) as (t' & Ht');
          destruct (encryption_keystore_backup env self w3) as [[[|]|?|?|] w4]
      end; cbn [fst snd hist before print] in *; rewrite Ht'; cbn [hist before];
        rewrite <- !app_assoc; cbn [app];
        eexists [_], _; (split; [reflexivity | reflexivity]).
    + match goal with
      | |- context [encryption_keystore_backup env self ?w3] =>
          destruct (keystore_enters env self w3) as (t' & Ht');
          destruct (encryption_keystore_backup env self w3) as [[[|]|?|?|] w4]
      end; cbn [fst snd hist before print] in *; rewrite Ht'; cbn [hist before];
        rewrite <- !app_assoc; cbn [app];
        eexists [_; _], _; (split; [reflexivity | reflexivity]).
Qed.

End Gate.

(** Claim C9, as amended.
    - When the move of an archive raises, the archiving returns False
      (lines 430-432 and 748-750).
    - Either backup returns True only when its last call is a move that
      did not raise and the file is at its destination.
    - The gate of [main] (lines 797-817): after a login that returned
      True, if [backup_workflow] returns False then all that follows is
      the print of its failure, and the keystore backup has not been
      entered; if it returns True its completion is printed and, after
      the visit of the dashboard, the keystore backup is entered.
    - Whatever the keystore backup does, a file of the configuration
      archive directory that nobody else touches is afterwards what it
      was before.
    - In what [main] adds to the history, the print of a failed
      configuration backup excludes the entry into the keystore backup,
      and that entry comes after the print of the completion. *)
Theorem failed_archive_and_its_sibling (env : Env) (self : UnityBackup) :
  (forall prefix target_dir f w e,
      fails env (hist w ++ [Now; Makedirs target_dir])
        (Move (download_dir env, f)
           (target_dir, new_name prefix (unity_url self) (clock env (hist w)) f)) = Some e ->
      (archive env self prefix target_dir f w).1 = Return false)
  /\ (forall w,
        ((backup_workflow env self w).1 = Normal true ->
         archived env (backup_workflow env self w).2)
        /\ ((encryption_keystore_backup env self w).1 = Normal true ->
            archived env (encryption_keystore_backup env self w).2))
  /\ (forall w w1 b w2,
        login env self w = (Normal true, w1) ->
        backup_workflow env self w1 = (Normal b, w2) ->
        (exists t,
            hist w2 = hist w ++ t
            /\ existsb (is_enter m_encryption_keystore_backup) t = false)
        /\ if b then
             exists t t',
               hist (backup_steps env self w).2
               = hist w2 ++ Print completed :: t ++ Enter m_encryption_keystore_backup :: t'
               /\ existsb (is_enter m_encryption_keystore_backup) t = false
           else backup_steps env self w = (Normal tt, before env (Print failed) w2))
  /\ (forall name w,
        (forall h files,
            evolve env h files !! (config_target_dir, name)
            = files !! (config_target_dir, name)) ->
        fs (encryption_keystore_backup env self w).2 !! (config_target_dir, name)
        = fs w !! (config_target_dir, name))
  /\ (forall w, exists t,
        hist (backup_steps env self w).2 = hist w ++ t
        /\ (existsb (is_print failed) t = true ->
            existsb (is_enter m_encryption_keystore_backup) t = false)
        /\ (existsb (is_enter m_encryption_keystore_backup) t = true ->
            exists t1 t2,
              t = t1 ++ Print completed :: t2
              /\ existsb (is_enter m_encryption_keystore_backup) t1 = false)).
Proof.
  split; [|split; [|split; [|split]]].
  - intros. eapply archive_move_fails; eauto.
  - intros w. split; [apply backup_workflow_true | apply encryption_keystore_backup_true].
  - intros w w1 b w2. apply gate_of_main.
  - intros name w Hq. apply keeps_encryption_keystore_backup; cbn [fst].
    + exact Hq.
    + apply config_target_dir_not_debug_dir.
    + apply download_dir_not_target.
    + discriminate.
  - intros w. destruct (shaped_backup_steps env self w) as (t & Ht & Hs).
    exists t. split; [exact Ht|]. split.
    + now apply shape_failed_no_keystore.
    + now apply shape_keystore_after_completed.
Qed.

(** Claim C9, as amended, where every move raises: the configuration
    backup moves, fails and returns False, and [main] only prints the
    failure. *)
Lemma failed_archive_and_its_sibling_witness :
  let env := ex_env move_fails (arrives_after_listing "b.cfg") EmptyString in
  let w1 := (login env ex_self ex_world).2 in
  let w2 := (backup_workflow env ex_self w1).2 in
  existsb is_move (hist w2) = true
  /\ (exists t,
         hist w2 = hist ex_world ++ t
         /\ existsb (is_enter m_encryption_keystore_backup) t = false)
  /\ backup_steps env ex_self ex_world = (Normal tt, before env (Print failed) w2).
Proof.
  cbv zeta. split; [vm_compute; reflexivity|].
  apply (proj1 (proj2 (proj2 (failed_archive_and_its_sibling
                                (ex_env move_fails (arrives_after_listing "b.cfg") EmptyString)
                                ex_self)))
           ex_world
           (login (ex_env move_fails (arrives_after_listing "b.cfg") EmptyString)
              ex_self ex_world).2
           false
           (backup_workflow (ex_env move_fails (arrives_after_listing "b.cfg") EmptyString)
              ex_self
              (login (ex_env move_fails (arrives_after_listing "b.cfg") EmptyString)
                 ex_self ex_world).2).2).
  - vm_compute. reflexivity.
  - vm_compute. reflexivity.
Defined.

